(** * The lifecycle controller of [mayaserver up]

    A shallow embedding of [cmd/up.go]: configuration acquisition
    ([readMayaConfig]), logger setup ([setupLoggers]), the signal dispatch
    loop with its graceful-leave race ([handleSignals]) and the reload path
    ([handleReload]).

    Conventions of the embedding.
    - Calls on [c.Ui] are recorded, oldest first, in the [ui] field of the
      state.
    - [*server.MayaConfig] values live in a store ([heap]); a pointer is
      [option loc], with [None] for Go's [nil].  Dereferencing [nil] is the
      outcome [Panic].
    - Package [server], [logutils], [flag] and [gsyslog] are collaborators:
      their functions are the fields of the class [Collaborators].
    - Time is counted in nanoseconds, as [time.Duration] does. *)

From Stdlib Require Import ZArith NArith Lia.
From stdpp Require Import base option list strings gmap.

Local Open Scope N_scope.

(** ** Signals *)

(** The four signals [handleSignals] registers with [signal.Notify]. *)
Inductive Signal := SIGINT | SIGTERM | SIGHUP | SIGPIPE.

(** [os.Interrupt] is [syscall.SIGINT]. *)
Definition Interrupt : Signal := SIGINT.

#[global] Instance Signal_eq_dec : EqDecision Signal.
Proof. solve_decision. Defined.

(** What [%v] prints for a signal. *)
Definition Signal_String (s : Signal) : string :=
  match s with
  | SIGINT => "interrupt"
  | SIGTERM => "terminated"
  | SIGHUP => "hangup"
  | SIGPIPE => "broken pipe"
  end.

(** ** The operator's console *)

Inductive UiMsg :=
| UiOutput (s : string)
| UiInfo (s : string)
| UiError (s : string)
| UiWarn (s : string).

(** ** Results of code that can dereference [nil] *)

Inductive Res (A : Type) :=
| Ok (a : A)
| Panic.
Arguments Ok {A} a.
Arguments Panic {A}.

(** ** Log level filter ([logutils.LevelFilter]) *)

Record LevelFilter := mkLevelFilter {
  Levels : list string;
  MinLevel : string
}.

(** [f.SetMinLevel(min)] *)
Definition SetMinLevel (min : string) (f : LevelFilter) : LevelFilter :=
  {| Levels := Levels f; MinLevel := min |}.

(** Modelled from the spec: [server.ValidateLevelFilter] is not part of
    [cmd/up.go].  Section 6 gives its contract, "checks a requested log
    severity against the filter's known set": a loop over [filter.Levels]
    that answers [true] at the first level equal to [minLevel]. *)
Fixpoint rangeLevels (minLevel : string) (levels : list string) : bool :=
  match levels with
  | [] => false
  | level :: rest =>
      if String.eqb level minLevel then true else rangeLevels minLevel rest
  end.

Definition ValidateLevelFilter (minLevel : string) (filter : LevelFilter) : bool :=
  rangeLevels minLevel (Levels filter).

(** [fmt.Sprintf("%v", levels)] for a slice of strings. *)
Fixpoint joinSpace (l : list string) : string :=
  match l with
  | [] => EmptyString
  | [x] => x
  | x :: rest => x +:+ " " +:+ joinSpace rest
  end.

Definition fmtLevels (l : list string) : string := "[" +:+ joinSpace l +:+ "]".

(** ** Time *)

(** [time.Second], in nanoseconds. *)
Definition Second : N := 1000000000.

(** [gracefulTimeout] controls how long we wait before forcefully
    terminating. *)
Definition gracefulTimeout : N := 5 * Second.

(** ** Help text *)

Definition dq : string := String (Ascii.ascii_of_nat 34) EmptyString.
Definition nl : string := String (Ascii.ascii_of_nat 10) EmptyString.

(** The literal of [Help], after [strings.TrimSpace], line by line. *)
Definition helpLines : list string := [
  "Usage: mayaserver up [options]";
  EmptyString;
  "  Starts Maya server and runs until an interrupt is received.";
  "  The agent may be a client and/or server.";
  EmptyString;
  "  The Maya server's configuration primarily comes from the config";
  "  files used, but a subset of the options may also be passed directly";
  "  as CLI arguments, listed below.";
  EmptyString;
  "General Options :";
  EmptyString;
  "  -bind=<addr>";
  "    The address the agent will bind to for all of its various network";
  "    services. The individual services that run bind to individual";
  "    ports on this address. Defaults to the loopback 127.0.0.1.";
  EmptyString;
  "  -config=<path>";
  "    The path to either a single config file or a directory of config";
  "    files to use for configuring Maya server. This option may be";
  "    specified multiple times. If multiple config files are used, the";
  "    values from each will be merged together. During merging, values";
  "    from files found later in the list are merged over values from";
  "    previously parsed files.";
  EmptyString;
  "  -data-dir=<path>";
  "    The data directory used to store state and other persistent data.";
  "    On client machines this is used to house allocation data such as";
  "    downloaded artifacts used by drivers. On server nodes, the data";
  "    dir is also used to store the replicated log.";
  EmptyString;
  "  -dc=<datacenter>";
  "    The name of the datacenter this server is a member of. By";
  "    default this is set to " +:+ dq +:+ "dc1" +:+ dq +:+ ".";
  EmptyString;
  "  -log-level=<level>";
  "    Specify the verbosity level of Maya server's logs. Valid values include";
  "    DEBUG, INFO, and WARN, in decreasing order of verbosity. The";
  "    default is INFO.";
  EmptyString;
  "  -node=<name>";
  "    The name of the local agent. This name is used to identify the node";
  "    in the cluster. The name must be unique per region. The default is";
  "    the current hostname of the machine.";
  EmptyString;
  "  -region=<region>";
  "    Name of the region the Maya server will be a member of. By default";
  "    this value is set to " +:+ dq +:+ "global" +:+ dq +:+ "."
].

Fixpoint joinLines (l : list string) : string :=
  match l with
  | [] => EmptyString
  | [x] => x
  | x :: rest => x +:+ nl +:+ joinLines rest
  end.

Definition Help : string := joinLines helpLines.

Definition Synopsis : string := "Runs Maya server".

(** ** The command object *)

(** The fields of [UpCommand] that are fixed while the command runs.  [Ui],
    [logFilter] and the servers are part of the running [State] below. *)
Module UpCommand.
Record t := mk {
  Revision : string;
  Version : string;
  VersionPrerelease : string;
  args : list string
}.
End UpCommand.

(** Addresses of [server.MayaConfig] objects; a pointer is [option loc]. *)
Definition loc := positive.
Definition ptr := option loc.

(** ** What the dispatch loop is given from outside *)

(** A value received by a [select]: from [signalCh], or from the externally
    owned [c.ShutdownCh]. *)
Inductive Source :=
| FromSignalCh (s : Signal)
| FromShutdownCh.

(** One send, [delay] nanoseconds after the previous one (after the start of
    [handleSignals] for the first). *)
Record Arrival := mkArrival {
  delay : N;
  src : Source
}.

(** How [c.maya.Leave()] behaves once started: it never returns, or returns
    after [d] nanoseconds with an error or with [nil]. *)
Inductive LeaveBehaviour :=
| LeaveHangs
| LeaveReturns (d : N) (err : option string).

(** The three cases of the final [select] of [handleSignals], in source
    order. *)
Inductive RaceCase := SecondSignal | TimedOut | LeaveDone.

(** How a call of [handleSignals] ends: it returns an exit code, it is still
    waiting when the arrivals are used up, or it has dereferenced [nil]. *)
Inductive Outcome :=
| Exit (code : Z)
| Blocked
| Panicked.

Section Lifecycle.

(** The fields of [server.MayaConfig] that [cmd/up.go] does not name. *)
Context {Rest : Type}.

(** [server.MayaConfig]: the fields [cmd/up.go] reads or writes, and the
    others. *)
Record MayaConfig := mkMayaConfig {
  Region : string;
  Datacenter : string;
  DataDir : string;
  LogLevel : string;
  BindAddr : string;
  EnableSyslog : bool;
  SyslogFacility : string;
  LeaveOnInt : bool;
  LeaveOnTerm : bool;
  Files : list string;
  Revision : string;
  Version : string;
  VersionPrerelease : string;
  Other : Rest
}.

(** [m.LogLevel = l] *)
Definition withLogLevel (l : string) (m : MayaConfig) : MayaConfig :=
  {| Region := Region m; Datacenter := Datacenter m; DataDir := DataDir m;
     LogLevel := l; BindAddr := BindAddr m; EnableSyslog := EnableSyslog m;
     SyslogFacility := SyslogFacility m; LeaveOnInt := LeaveOnInt m;
     LeaveOnTerm := LeaveOnTerm m; Files := Files m; Revision := Revision m;
     Version := Version m; VersionPrerelease := VersionPrerelease m;
     Other := Other m |}.

(** [m.Revision = c.Revision; m.Version = c.Version;
     m.VersionPrerelease = c.VersionPrerelease] *)
Definition withVersionInfo (c : UpCommand.t) (m : MayaConfig) : MayaConfig :=
  {| Region := Region m; Datacenter := Datacenter m; DataDir := DataDir m;
     LogLevel := LogLevel m; BindAddr := BindAddr m;
     EnableSyslog := EnableSyslog m; SyslogFacility := SyslogFacility m;
     LeaveOnInt := LeaveOnInt m; LeaveOnTerm := LeaveOnTerm m;
     Files := Files m; Revision := UpCommand.Revision c;
     Version := UpCommand.Version c;
     VersionPrerelease := UpCommand.VersionPrerelease c; Other := Other m |}.

(** The collaborators of [cmd/up.go].  None of them is part of the file;
    each is used through its signature only.  A [*MayaConfig] result is an
    [option]: [None] is [nil].  [LoadMayaConfig] reads the disk, so it
    depends on the time of the call. *)
Class Collaborators := {
  (** [strings.ToUpper] *)
  ToUpper : string -> string;
  (** [server.LevelFilter()] *)
  server_LevelFilter : LevelFilter;
  (** [flags.Parse(c.args)] over the flag set of [readMayaConfig]: [None]
      for an error, otherwise the [-config] paths and [cmdConfig]. *)
  flagsParse : list string -> option (list string * MayaConfig);
  (** [server.DefaultMayaConfig()] *)
  DefaultMayaConfig : option MayaConfig;
  (** [server.LoadMayaConfig(path)]: an error or the loaded configuration *)
  LoadMayaConfig : N -> string -> string + option MayaConfig;
  (** [a.Merge(b)] *)
  Merge : option MayaConfig -> option MayaConfig -> option MayaConfig;
  (** [mconfig.NormalizeAddrs()]: an error or the normalized receiver *)
  NormalizeAddrs : MayaConfig -> string + MayaConfig;
  (** [filepath.IsAbs] *)
  IsAbs : string -> bool;
  (** [reflect.DeepEqual(current, &server.MayaConfig{})] *)
  isZeroConfig : MayaConfig -> bool;
  (** [gsyslog.NewLogger(gsyslog.LOG_NOTICE, facility, "mayaserver")]:
      [Some err] when it fails *)
  NewLogger : string -> option string
}.

Context `{K : Collaborators}.

(** ** Configuration acquisition *)

(** The loop of [readMayaConfig] over [configPath].  The result is [None]
    when the loop leaves the function with [return nil], otherwise the
    value of [mconfig] after the loop. *)
Fixpoint loadConfigPaths (t : N) (configPath : list string)
    (mconfig : option MayaConfig) : list UiMsg * option (option MayaConfig) :=
  match configPath with
  | [] => ([], Some mconfig)
  | path :: rest =>
      match LoadMayaConfig t path with
      | inl err =>
          ([UiError ("Error loading configuration from " +:+ path +:+ ": " +:+ err)],
           None)
      | inr current =>
          let warn :=
            match current with
            | None => [UiWarn ("No configuration loaded from " +:+ path)]
            | Some cur =>
                if isZeroConfig cur
                then [UiWarn ("No configuration loaded from " +:+ path)]
                else []
            end in
          let mconfig' :=
            match mconfig with
            | None => current
            | Some _ => Merge mconfig current
            end in
          let '(msgs, r) := loadConfigPaths t rest mconfig' in
          (warn ++ msgs, r)
      end
  end.

(** [readMayaConfig], called at time [t]: the calls it makes on [c.Ui] and
    its result, [Ok None] for [nil]. *)
Definition readMayaConfig (c : UpCommand.t) (t : N)
    : list UiMsg * Res (option MayaConfig) :=
  match flagsParse (UpCommand.args c) with
  | None => ([UiError Help], Ok None)
  | Some (configPath, cmdConfig) =>
      match loadConfigPaths t configPath DefaultMayaConfig with
      | (msgs, None) => (msgs, Ok None)
      | (msgs, Some mconfig) =>
          (* Merge any CLI options over config file options *)
          match Merge mconfig (Some cmdConfig) with
          | None => (msgs, Panic)
          | Some merged =>
              (* Set the version info *)
              let mconfig := withVersionInfo c merged in
              (* Normalize binds, ports, addresses, and advertise *)
              match NormalizeAddrs mconfig with
              | inl err => (msgs ++ [UiError err], Ok None)
              | inr mconfig =>
                  (* Verify the paths are absolute. *)
                  let dir := DataDir mconfig in
                  if String.eqb dir EmptyString then (msgs, Ok (Some mconfig))
                  else if negb (IsAbs dir) then
                    (msgs ++ [UiError ("data-dir must be given as an absolute path: got " +:+ dir)],
                     Ok None)
                  else (msgs, Ok (Some mconfig))
              end
          end
      end
  end.

(** ** The running state *)

Record State := mkState {
  (** the calls made on [c.Ui], oldest first *)
  ui : list UiMsg;
  (** [c.logFilter]; [None] is [nil] *)
  logFilter : option LevelFilter;
  (** the [server.MayaConfig] objects *)
  heap : gmap loc MayaConfig;
  (** nanoseconds since the process started *)
  now : N;
  (** how many times a goroutine calling [c.maya.Leave()] was started *)
  leaves : nat
}.

Definition says (ms : list UiMsg) (st : State) : State :=
  {| ui := ui st ++ ms; logFilter := logFilter st; heap := heap st;
     now := now st; leaves := leaves st |}.

Definition say (m : UiMsg) (st : State) : State := says [m] st.

Definition setLogFilter (f : option LevelFilter) (st : State) : State :=
  {| ui := ui st; logFilter := f; heap := heap st; now := now st;
     leaves := leaves st |}.

Definition setHeap (h : gmap loc MayaConfig) (st : State) : State :=
  {| ui := ui st; logFilter := logFilter st; heap := h; now := now st;
     leaves := leaves st |}.

Definition tick (d : N) (st : State) : State :=
  {| ui := ui st; logFilter := logFilter st; heap := heap st;
     now := now st + d; leaves := leaves st |}.

Definition startLeave (st : State) : State :=
  {| ui := ui st; logFilter := logFilter st; heap := heap st; now := now st;
     leaves := S (leaves st) |}.

(** [*p] *)
Definition deref (p : ptr) (st : State) : option MayaConfig :=
  match p with
  | None => None
  | Some l => heap st !! l
  end.

(** A new object holding [m]. *)
Definition alloc (m : MayaConfig) (st : State) : loc * State :=
  let l := fresh (dom (heap st)) in
  (l, setHeap (<[l := m]> (heap st)) st).

(** ** Logger setup *)

(** [setupLoggers] is used to setup the logGate, logWriter, and our
    logOutput.  The result stands for the three writers: [Ok None] when they
    are [nil], [Ok (Some syslog)] otherwise, where [syslog] tells whether a
    syslog writer is part of [logOutput].  Of the filter, [Levels] and
    [MinLevel] are kept; its [Writer] and the writers built around it carry
    log lines and play no part in the lifecycle. *)
Definition setupLoggers (mconfig : ptr) (st : State) : Res (option bool) * State :=
  let st := setLogFilter (Some server_LevelFilter) st in
  match deref mconfig st with
  | None => (Panic, st)
  | Some cfg =>
      let filter :=
        {| Levels := Levels server_LevelFilter;
           MinLevel := ToUpper (LogLevel cfg) |} in
      let st := setLogFilter (Some filter) st in
      if negb (ValidateLevelFilter (MinLevel filter) filter) then
        (Ok None,
         say (UiError ("Invalid log level: " +:+ MinLevel filter
                       +:+ ". Valid log levels are: "
                       +:+ fmtLevels (Levels filter))) st)
      else
        (* Check if syslog is enabled *)
        if EnableSyslog cfg then
          match NewLogger (SyslogFacility cfg) with
          | Some err =>
              (Ok None, say (UiError ("Syslog setup failed: " +:+ err)) st)
          | None => (Ok (Some true), st)
          end
        else (Ok (Some false), st)
  end.

(** ** Reload *)

(** [handleReload] is invoked when we should reload our configs, e.g.
    SIGHUP.  The configuration [readMayaConfig] returns is placed in a new
    object: it is built by [server.DefaultMayaConfig] and [Merge], and a
    reload "produces a new snapshot" (section 3 of the specification). *)
Definition handleReload (c : UpCommand.t) (mconfig : ptr) (st : State)
    : Res ptr * State :=
  let st := say (UiOutput "Reloading Maya server configuration...") st in
  let '(msgs, r) := readMayaConfig c (now st) in
  let st := says msgs st in
  match r with
  | Panic => (Panic, st)
  | Ok None => (Ok mconfig, say (UiError "Failed to reload config") st)
  | Ok (Some cfg) =>
      let '(newConf, st) := alloc cfg st in
      (* Change the log level *)
      let minLevel := ToUpper (LogLevel cfg) in
      match logFilter st with
      | None => (Panic, st)
      | Some filter =>
          if ValidateLevelFilter minLevel filter then
            (Ok (Some newConf),
             setLogFilter (Some (SetMinLevel minLevel filter)) st)
          else
            let st :=
              say (UiError ("Invalid log level: " +:+ minLevel
                            +:+ ". Valid log levels are: "
                            +:+ fmtLevels (Levels filter))) st in
            (* Keep the current log level *)
            match deref mconfig st with
            | None => (Panic, st)
            | Some old =>
                (Ok (Some newConf),
                 setHeap (<[newConf := withLogLevel (LogLevel old) cfg]> (heap st)) st)
            end
      end
  end.

(** ** The graceful-leave race *)

(** When the next value is sent on [signalCh], counted from now.  Sends on
    [c.ShutdownCh] are passed over: the final [select] has no case for
    them. *)
Fixpoint nextSignal (rest : list Arrival) : option N :=
  match rest with
  | [] => None
  | a :: rest' =>
      match src a with
      | FromSignalCh _ => Some (delay a)
      | FromShutdownCh =>
          match nextSignal rest' with
          | Some t => Some (delay a + t)
          | None => None
          end
      end
  end.

(** The cases of the final [select] that become ready, each with the time
    at which it does: a receive from [signalCh], the timer of
    [time.After(gracefulTimeout)], and the close of [gracefulCh], which only
    happens when [Leave] returns [nil]. *)
Definition readyAt (leave : LeaveBehaviour) (rest : list Arrival)
    : list (RaceCase * N) :=
  match nextSignal rest with
  | Some t => [(SecondSignal, t)]
  | None => []
  end
  ++ [(TimedOut, gracefulTimeout)]
  ++ match leave with
     | LeaveReturns d None => [(LeaveDone, d)]
     | _ => []
     end.

Definition earliest (cases : list (RaceCase * N)) : N :=
  foldr (fun x acc => N.min (snd x) acc) gracefulTimeout cases.

(** A [select] blocks until a case can proceed and then takes one of the
    cases that can, chosen by [rnd] when there are several. *)
Definition selectCase (rnd : nat) (cases : list (RaceCase * N)) : RaceCase * N :=
  let t := earliest cases in
  let ready := filter (fun x => snd x = t) cases in
  nth (rnd mod length ready) ready (TimedOut, gracefulTimeout).

(** The goroutine started by [handleSignals], as far as it gets in the [t]
    nanoseconds the [select] takes: the error of [Leave] is on the console
    when [Leave] returned before the [select] did. *)
Definition leaveGoroutine (leave : LeaveBehaviour) (t : N) (st : State) : State :=
  match leave with
  | LeaveReturns d (Some err) =>
      if d <? t then say (UiError ("Error: " +:+ err)) st else st
  | _ => st
  end.

(** The code after "Attempt a graceful leave". *)
Definition gracefulLeave (leave : LeaveBehaviour) (rnd : nat)
    (rest : list Arrival) (st : State) : Outcome * State :=
  let st := say (UiOutput "Gracefully shutting Maya server...") st in
  let st := startLeave st in
  (* Wait for leave or another signal *)
  let '(case, t) := selectCase rnd (readyAt leave rest) in
  let st := tick t (leaveGoroutine leave t st) in
  match case with
  | SecondSignal => (Exit 1, st)
  | TimedOut => (Exit 1, st)
  | LeaveDone => (Exit 0, st)
  end.

(** ** The dispatch loop *)

(** [handleSignals] blocks until we get an exit-causing signal.  [arrivals]
    are the sends on [signalCh] and [c.ShutdownCh] in the order in which the
    first [select] receives them. *)
Fixpoint handleSignals (c : UpCommand.t) (mconfig : ptr)
    (leave : LeaveBehaviour) (rnd : nat) (arrivals : list Arrival)
    (st : State) : Outcome * State :=
  match arrivals with
  | [] => (Blocked, st)
  | a :: rest =>
      (* Wait for a signal *)
      let st := tick (delay a) st in
      let sig :=
        match src a with
        | FromSignalCh s => s
        | FromShutdownCh => Interrupt
        end in
      let st := say (UiOutput ("Caught signal: " +:+ Signal_String sig)) st in
      (* Skip any SIGPIPE signal *)
      if decide (sig = SIGPIPE) then handleSignals c mconfig leave rnd rest st
      (* Check if this is a SIGHUP *)
      else if decide (sig = SIGHUP) then
        match handleReload c mconfig st with
        | (Panic, st) => (Panicked, st)
        | (Ok None, st) => handleSignals c mconfig leave rnd rest st
        | (Ok (Some conf), st) =>
            (* *mconfig = *conf *)
            match mconfig, deref mconfig st, heap st !! conf with
            | Some m, Some _, Some v =>
                handleSignals c mconfig leave rnd rest
                  (setHeap (<[m := v]> (heap st)) st)
            | _, _, _ => (Panicked, st)
            end
        end
      else
        (* Check if we should do a graceful leave *)
        match deref mconfig st with
        | None => (Panicked, st)
        | Some cfg =>
            let graceful :=
              if bool_decide (sig = Interrupt) && LeaveOnInt cfg then true
              else if bool_decide (sig = SIGTERM) && LeaveOnTerm cfg then true
              else false in
            (* Bail fast if not doing a graceful leave *)
            if negb graceful then (Exit 1, st)
            (* Attempt a graceful leave *)
            else gracefulLeave leave rnd rest st
        end
  end.

End Lifecycle.

(** ** Startup: [setupMayaServer] and [Run] *)

(** What happens to the two servers, oldest first. *)
Inductive ServerEvent :=
| MayaStarted
| HTTPStarted
| MayaShutdown
| HTTPShutdown.

#[global] Instance ServerEvent_eq_dec : EqDecision ServerEvent.
Proof. solve_decision. Defined.

(** The fields [maya] and [httpServer] of the command, [true] when they are
    not [nil], and the calls made on the servers. *)
Record Servers := mkServers {
  maya : bool;
  httpServer : bool;
  events : list ServerEvent
}.

Definition happened (e : ServerEvent) (sv : Servers) : Servers :=
  {| maya := maya sv; httpServer := httpServer sv; events := events sv ++ [e] |}.

(** [sort.Strings]: the order of [<] on Go strings is that of
    [String.leb]. *)
Fixpoint insertString (x : string) (l : list string) : list string :=
  match l with
  | [] => [x]
  | y :: rest => if String.leb x y then x :: l else y :: insertString x rest
  end.

Definition sortStrings (l : list string) : list string :=
  foldr insertString [] l.

(** [strings.Repeat], which panics on a negative count. *)
Definition Repeat (s : string) (count : Z) : Res string :=
  if (count <? 0)%Z then Panic
  else Ok (String.concat EmptyString (replicate (Z.to_nat count) s)).

(** [strings.Title] on ASCII text, which is what [Run] applies it to: a
    letter is upper-cased when the character before it is a separator, and
    the characters that are not separators are the letters, the digits and
    the underscore. *)
Definition isSeparator (a : Ascii.ascii) : bool :=
  let n := Ascii.nat_of_ascii a in
  negb (((48 <=? n) && (n <=? 57)) || ((97 <=? n) && (n <=? 122))
        || ((65 <=? n) && (n <=? 90)) || (n =? 95) || (128 <=? n))%nat.

Definition toTitle (a : Ascii.ascii) : Ascii.ascii :=
  let n := Ascii.nat_of_ascii a in
  if ((97 <=? n) && (n <=? 122))%nat then Ascii.ascii_of_nat (n - 32) else a.

Fixpoint titleFrom (prev : Ascii.ascii) (s : string) : string :=
  match s with
  | EmptyString => EmptyString
  | String r rest =>
      String (if isSeparator prev then toTitle r else r) (titleFrom r rest)
  end.

Definition Title (s : string) : string := titleFrom (Ascii.ascii_of_nat 32) s.

Definition padding : Z := 18.

Section Startup.

Context {Rest : Type} `{K : @Collaborators Rest}.

(** The two constructors of package [server] that [setupMayaServer] calls,
    as far as [cmd/up.go] depends on them: given what [mconfig] points to,
    [None] for [nil], they answer [Some err] when they fail. *)
Class ServerCollaborators := {
  (** [server.NewMayaServer(mconfig, logOutput)] *)
  NewMayaServer : option (@MayaConfig Rest) -> option string;
  (** [server.NewHTTPServer(maya, mconfig, logOutput)] *)
  NewHTTPServer : option (@MayaConfig Rest) -> option string
}.

Context `{SK : ServerCollaborators}.

(** [setupMayaServer] is used to start Maya server.  The result is the
    error, [None] for [nil]. *)
Definition setupMayaServer (mconfig : ptr) (st : @State Rest) (sv : Servers)
    : option string * @State Rest * Servers :=
  let st := say (UiOutput "Starting Maya server ...") st in
  match NewMayaServer (deref mconfig st) with
  | Some err =>
      (Some err, say (UiError ("Error starting Maya server: " +:+ err)) st, sv)
  | None =>
      let sv :=
        {| maya := true; httpServer := httpServer sv;
           events := events sv ++ [MayaStarted] |} in
      (* Setup the HTTP server *)
      match NewHTTPServer (deref mconfig st) with
      | Some err =>
          (Some err,
           say (UiError ("Error starting http server: " +:+ err)) st,
           happened MayaShutdown sv)
      | None =>
          (None, st,
           {| maya := maya sv; httpServer := true;
              events := events sv ++ [HTTPStarted] |})
      end
  end.

(** The map [info] of [Run]. *)
Definition serverInfo (cfg : @MayaConfig Rest) : gmap string string :=
  <["region" := Region cfg +:+ " (DC: " +:+ Datacenter cfg +:+ ")"]>
    (<["log level" := LogLevel cfg]>
       (<["version" := Version cfg +:+ VersionPrerelease cfg]> ∅)).

(** The keys of [info], collected in whatever order and sorted. *)
Definition infoKeys (info : gmap string string) : list string :=
  sortStrings (map fst (map_to_list info)).

(** The loop of [Run] that prints [info]. *)
Fixpoint printInfo (info : gmap string string) (keys : list string)
    (st : @State Rest) : Res unit * @State Rest :=
  match keys with
  | [] => (Ok tt, st)
  | k :: rest =>
      match Repeat " " (padding - Z.of_nat (String.length k)) with
      | Panic => (Panic, st)
      | Ok pad =>
          printInfo info rest
            (say (UiInfo (pad +:+ Title k +:+ ": "
                          +:+ default EmptyString (info !! k))) st)
      end
  end.

(** The deferred calls of [Run], last registered first. *)
Definition runDeferred (sv : Servers) : Servers :=
  let sv := if httpServer sv then happened HTTPShutdown sv else sv in
  happened MayaShutdown sv.

(** [Run].  The console records the calls on [c.Ui] before [PrefixedUi]
    adds its prefixes; [logGate.Flush] moves log lines only.  While
    [handleSignals] is waiting the deferred calls have not run. *)
Definition Run (c : UpCommand.t) (args : list string)
    (leave : LeaveBehaviour) (rnd : nat) (arrivals : list Arrival)
    (st : @State Rest) (sv : Servers) : Outcome * @State Rest * Servers :=
  (* Parse our configs *)
  let c :=
    {| UpCommand.Revision := UpCommand.Revision c;
       UpCommand.Version := UpCommand.Version c;
       UpCommand.VersionPrerelease := UpCommand.VersionPrerelease c;
       UpCommand.args := args |} in
  let '(msgs, r) := readMayaConfig c (now st) in
  let st := says msgs st in
  match r with
  | Panic => (Panicked, st, sv)
  | Ok None => (Exit 1, st, sv)
  | Ok (Some cfg) =>
      let '(l, st) := alloc cfg st in
      let mconfig : ptr := Some l in
      (* Setup the log outputs *)
      match setupLoggers mconfig st with
      | (Panic, st) => (Panicked, st, sv)
      | (Ok None, st) => (Exit 1, st, sv)
      | (Ok (Some _), st) =>
          match deref mconfig st with
          | None => (Panicked, st, sv)
          | Some cfg =>
              (* Log config files *)
              let st :=
                if (0 <? length (Files cfg))%nat then
                  say (UiInfo ("Loaded configuration from "
                               +:+ String.concat ", " (Files cfg))) st
                else say (UiInfo "No configuration files loaded") st in
              (* Setup Maya server *)
              match setupMayaServer mconfig st sv with
              | (Some _, st, sv) => (Exit 1, st, sv)
              | (None, st, sv) =>
                  match deref mconfig st with
                  | None => (Panicked, st, runDeferred sv)
                  | Some cfg =>
                      (* Compile Maya server information for output later *)
                      let info := serverInfo cfg in
                      (* Sort the keys for output *)
                      let keys := infoKeys info in
                      (* Maya server configuration output *)
                      let st := say (UiOutput ("Maya server configuration:" +:+ nl)) st in
                      match printInfo info keys st with
                      | (Panic, st) => (Panicked, st, runDeferred sv)
                      | (Ok _, st) =>
                          let st := say (UiOutput EmptyString) st in
                          (* Output the header that the server has started *)
                          let st :=
                            say (UiOutput ("Maya server started! Log data will stream in below:" +:+ nl)) st in
                          (* Wait for exit *)
                          match handleSignals c mconfig leave rnd arrivals st with
                          | (Blocked, st) => (Blocked, st, sv)
                          | (o, st) => (o, st, runDeferred sv)
                          end
                      end
                  end
              end
          end
      end
  end.

End Startup.

(** ** A concrete set of collaborators

    Used to run the model: upper-casing of ASCII letters, the five levels
    of the server's filter, one optional [-config] path, and a disk whose
    file [/etc/maya.conf] changes over time. *)
Module Demo.

Definition upperAscii (a : Ascii.ascii) : Ascii.ascii :=
  let n := Ascii.nat_of_ascii a in
  if ((97 <=? n) && (n <=? 122))%nat then Ascii.ascii_of_nat (n - 32) else a.

Fixpoint toUpper (s : string) : string :=
  match s with
  | EmptyString => EmptyString
  | String a rest => String (upperAscii a) (toUpper rest)
  end.

Definition zero : @MayaConfig unit :=
  {| Region := EmptyString; Datacenter := EmptyString;
     DataDir := EmptyString; LogLevel := EmptyString;
     BindAddr := EmptyString; EnableSyslog := false;
     SyslogFacility := EmptyString; LeaveOnInt := false;
     LeaveOnTerm := false; Files := []; Revision := EmptyString;
     Version := EmptyString; VersionPrerelease := EmptyString;
     Other := tt |}.

Definition default : @MayaConfig unit :=
  {| Region := "global"; Datacenter := "dc1"; DataDir := EmptyString;
     LogLevel := "INFO"; BindAddr := "127.0.0.1"; EnableSyslog := false;
     SyslogFacility := "LOCAL0"; LeaveOnInt := false;
     LeaveOnTerm := false; Files := []; Revision := EmptyString;
     Version := EmptyString; VersionPrerelease := EmptyString;
     Other := tt |}.

(** A configuration file that sets the log level, the region and
    [leave_on_interrupt]. *)
Definition fileWith (level region : string) (leaveOnInt : bool) : @MayaConfig unit :=
  {| Region := region; Datacenter := EmptyString; DataDir := EmptyString;
     LogLevel := level; BindAddr := EmptyString; EnableSyslog := false;
     SyslogFacility := EmptyString; LeaveOnInt := leaveOnInt;
     LeaveOnTerm := false; Files := ["/etc/maya.conf"];
     Revision := EmptyString; Version := EmptyString;
     VersionPrerelease := EmptyString; Other := tt |}.

Definition orElse (a b : string) : string :=
  if String.eqb b EmptyString then a else b.

(** Fields set in [b] are merged over those of [a]. *)
Definition merge (a b : @MayaConfig unit) : @MayaConfig unit :=
  {| Region := orElse (Region a) (Region b);
     Datacenter := orElse (Datacenter a) (Datacenter b);
     DataDir := orElse (DataDir a) (DataDir b);
     LogLevel := orElse (LogLevel a) (LogLevel b);
     BindAddr := orElse (BindAddr a) (BindAddr b);
     EnableSyslog := EnableSyslog a || EnableSyslog b;
     SyslogFacility := orElse (SyslogFacility a) (SyslogFacility b);
     LeaveOnInt := LeaveOnInt a || LeaveOnInt b;
     LeaveOnTerm := LeaveOnTerm a || LeaveOnTerm b;
     Files := Files a ++ Files b;
     Revision := orElse (Revision a) (Revision b);
     Version := orElse (Version a) (Version b);
     VersionPrerelease := orElse (VersionPrerelease a) (VersionPrerelease b);
     Other := tt |}.

(** The disk: [/etc/maya.conf] asks for level [debug] during the first
    ten seconds, for the unknown level [bogus] during the next ten, and
    cannot be parsed after that. *)
Definition load (t : N) (path : string) : string + option (@MayaConfig unit) :=
  if String.eqb path "/etc/maya.conf" then
    if t <? 10 * Second then inr (Some (fileWith "debug" "eu" true))
    else if t <? 20 * Second then inr (Some (fileWith "bogus" "us" true))
    else inl "parse error"
  else inl "no such file or directory".

Definition parse (args : list string) : option (list string * @MayaConfig unit) :=
  match args with
  | [] => Some ([], zero)
  | [a; path] => if String.eqb a "-config" then Some ([path], zero) else None
  | _ => None
  end.

#[global] Instance collaborators : @Collaborators unit := {|
  ToUpper := toUpper;
  server_LevelFilter :=
    {| Levels := ["TRACE"; "DEBUG"; "INFO"; "WARN"; "ERR"]; MinLevel := "INFO" |};
  flagsParse := parse;
  DefaultMayaConfig := Some default;
  LoadMayaConfig := load;
  Merge := fun a b =>
    match a, b with
    | Some x, Some y => Some (merge x y)
    | Some x, None => Some x
    | None, _ => b
    end;
  NormalizeAddrs := fun m => inr m;
  IsAbs := fun s => String.prefix "/" s;
  isZeroConfig := fun m => bool_decide (LogLevel m = EmptyString);
  NewLogger := fun _ => None
|}.

Definition cmd : UpCommand.t :=
  {| UpCommand.Revision := "abc123"; UpCommand.Version := "0.0.1";
     UpCommand.VersionPrerelease := "dev";
     UpCommand.args := ["-config"; "/etc/maya.conf"] |}.

(** The state in which [Run] calls [setupLoggers]: the configuration
    read at time [0] is the object at address [1]. *)
Definition boot (m : @MayaConfig unit) : @State unit :=
  {| ui := []; logFilter := None; heap := {[ 1%positive := m ]};
     now := 0; leaves := 0 |}.

(** A state of the dispatch loop with active configuration [m] and
    minimum level [INFO]. *)
Definition running (m : @MayaConfig unit) : @State unit :=
  {| ui := []; logFilter := Some server_LevelFilter;
     heap := {[ 1%positive := m ]}; now := 0; leaves := 0 |}.

Definition active : ptr := Some 1%positive.

End Demo.

(** ** Inputs for running the model *)

Module Scenario.

Import Demo.

(** An active configuration with [LeaveOnInt] set. *)
Definition leaver : @MayaConfig unit := fileWith "INFO" "eu" true.

(** An active configuration with [LeaveOnInt] unset. *)
Definition stayer : @MayaConfig unit := fileWith "INFO" "eu" false.

Definition sigint (d : N) : Arrival := mkArrival d (FromSignalCh SIGINT).
Definition sighup (d : N) : Arrival := mkArrival d (FromSignalCh SIGHUP).
Definition sigpipe (d : N) : Arrival := mkArrival d (FromSignalCh SIGPIPE).
Definition shutdown (d : N) : Arrival := mkArrival d FromShutdownCh.

(** The exit code and the time of the exit. *)
Definition verdict (r : Outcome * @State unit) : Outcome * N :=
  (r.1, now r.2).

End Scenario.

(** ** Servers for running [Run] *)

Module DemoServers.

(** Both servers start. *)
Definition up : @ServerCollaborators unit :=
  {| NewMayaServer := fun _ => None; NewHTTPServer := fun _ => None |}.


(** The server itself cannot start. *)
Definition mayaDown : @ServerCollaborators unit :=
  {| NewMayaServer := fun _ => Some "data-dir is not writable";
     NewHTTPServer := fun _ => None |}.

(** A process that has just started. *)
Definition blank : @State unit :=
  {| ui := []; logFilter := None; heap := ∅; now := 0; leaves := 0 |}.

Definition idle : Servers :=
  {| maya := false; httpServer := false; events := [] |}.

End DemoServers.

(** ** A disk with more files *)

Module DemoDisk.

(** A configuration file that only sets the data directory. *)
Definition dataDir (dir : string) : @MayaConfig unit :=
  {| Region := EmptyString; Datacenter := EmptyString; DataDir := dir;
     LogLevel := EmptyString; BindAddr := EmptyString; EnableSyslog := false;
     SyslogFacility := EmptyString; LeaveOnInt := false;
     LeaveOnTerm := false; Files := ["/etc/data.conf"];
     Revision := EmptyString; Version := EmptyString;
     VersionPrerelease := EmptyString; Other := tt |}.

(** Besides [/etc/maya.conf] there are an empty file, a file that sets an
    absolute data directory and one that sets a relative one. *)
Definition load (t : N) (path : string) : string + option (@MayaConfig unit) :=
  if String.eqb path "/etc/empty.conf" then inr (Some Demo.zero)
  else if String.eqb path "/etc/data.conf" then inr (Some (dataDir "/var/maya"))
  else if String.eqb path "/etc/relative.conf" then inr (Some (dataDir "var/maya"))
  else Demo.load t path.

(** Any number of [-config path] pairs. *)
Fixpoint parse (args : list string) : option (list string * @MayaConfig unit) :=
  match args with
  | [] => Some ([], Demo.zero)
  | a :: path :: rest =>
      if String.eqb a "-config" then
        match parse rest with
        | Some (paths, cmdConfig) => Some (path :: paths, cmdConfig)
        | None => None
        end
      else None
  | _ => None
  end.

Definition collaborators : @Collaborators unit := {|
  ToUpper := Demo.toUpper;
  server_LevelFilter :=
    {| Levels := ["TRACE"; "DEBUG"; "INFO"; "WARN"; "ERR"]; MinLevel := "INFO" |};
  flagsParse := parse;
  DefaultMayaConfig := Some Demo.default;
  LoadMayaConfig := load;
  Merge := fun a b =>
    match a, b with
    | Some x, Some y => Some (Demo.merge x y)
    | Some x, None => Some x
    | None, _ => b
    end;
  NormalizeAddrs := fun m => inr m;
  IsAbs := fun s => String.prefix "/" s;
  isZeroConfig := fun m =>
    bool_decide (LogLevel m = EmptyString ∧ Region m = EmptyString
                 ∧ DataDir m = EmptyString);
  NewLogger := fun facility =>
    if String.eqb facility "LOCAL0" then None else Some "invalid facility"
|}.

(** The command given [paths] with [-config]. *)
Definition cmd (paths : list string) : UpCommand.t :=
  {| UpCommand.Revision := "abc123"; UpCommand.Version := "0.0.1";
     UpCommand.VersionPrerelease := "dev";
     UpCommand.args := flat_map (fun path => ["-config"; path]) paths |}.

(** What [readMayaConfig] returns for the empty file, the data directory
    file and [/etc/maya.conf], in that order, during the first ten
    seconds. *)
Definition acquired : @MayaConfig unit :=
  {| Region := "eu"; Datacenter := "dc1"; DataDir := "/var/maya";
     LogLevel := "debug"; BindAddr := "127.0.0.1"; EnableSyslog := false;
     SyslogFacility := "LOCAL0"; LeaveOnInt := true; LeaveOnTerm := false;
     Files := ["/etc/data.conf"; "/etc/maya.conf"]; Revision := "abc123";
     Version := "0.0.1"; VersionPrerelease := "dev"; Other := tt |}.

(** An active configuration with [LeaveOnTerm] set and [LeaveOnInt]
    unset. *)
Definition termLeaver : @MayaConfig unit :=
  {| Region := "eu"; Datacenter := "dc1"; DataDir := EmptyString;
     LogLevel := "INFO"; BindAddr := "127.0.0.1"; EnableSyslog := false;
     SyslogFacility := "LOCAL0"; LeaveOnInt := false; LeaveOnTerm := true;
     Files := []; Revision := "abc123"; Version := "0.0.1";
     VersionPrerelease := "dev"; Other := tt |}.

Definition sigterm (d : N) : Arrival := mkArrival d (FromSignalCh SIGTERM).

(** A running state with a second configuration object beside the active
    one. *)
Definition twoObjects : @State unit :=
  {| ui := []; logFilter := Some server_LevelFilter;
     heap := <[2%positive := Scenario.stayer]> {[ 1%positive := Scenario.leaver ]};
     now := 0; leaves := 0 |}.

End DemoDisk.

(** * Properties *)

Section Facts.

Context {Rest : Type} `{K : @Collaborators Rest}.

Implicit Types (st : @State Rest) (cfg old new : @MayaConfig Rest)
  (l : loc) (a : Arrival) (rest : list Arrival) (filter : LevelFilter).

(** ** The state in which an arrival is dispatched *)

(** The signal the first [select] of [handleSignals] hands to the code
    below it. *)
Definition signalOf (a : Arrival) : Signal :=
  match src a with
  | FromSignalCh s => s
  | FromShutdownCh => Interrupt
  end.

(** The state after the first [select] has received [a] and the line
    "Caught signal" is printed. *)
Definition received (a : Arrival) (st : @State Rest) : @State Rest :=
  say (UiOutput ("Caught signal: " +:+ Signal_String (signalOf a)))
      (tick (delay a) st).

(** The state in which the final [select] starts. *)
Definition leaving (st : @State Rest) : @State Rest :=
  startLeave (say (UiOutput "Gracefully shutting Maya server...") st).

(** [a] makes [handleSignals] attempt a graceful leave under [cfg]. *)
Definition arms (cfg : @MayaConfig Rest) (a : Arrival) : Prop :=
  (signalOf a = Interrupt ∧ LeaveOnInt cfg = true)
  ∨ (signalOf a = SIGTERM ∧ LeaveOnTerm cfg = true).

(** The minimum level of the filter is one of its levels. *)
Definition filterValid (st : @State Rest) : Prop :=
  ∀ filter, logFilter st = Some filter → MinLevel filter ∈ Levels filter.

#[global] Instance arms_dec cfg a : Decision (arms cfg a).
Proof. unfold arms. apply _. Defined.

#[global] Instance filterValid_dec st : Decision (filterValid st).
Proof.
  unfold filterValid. destruct (logFilter st) as [filter|].
  - destruct (decide (MinLevel filter ∈ Levels filter)) as [Hin | Hout].
    + left. by intros f [= <-].
    + right. intros H. by apply Hout, H.
  - left. intros f H. discriminate H.
Defined.

(** The two states differ at most in what is on the console. *)
Definition sameButUi (st st' : @State Rest) : Prop :=
  logFilter st = logFilter st' ∧ heap st = heap st'
  ∧ now st = now st' ∧ leaves st = leaves st'.

(** The time the arrivals take. *)
Definition elapsed (arrivals : list Arrival) : N :=
  foldr (fun a acc => delay a + acc) 0 arrivals.

(** [path] loads without error but brings no configuration. *)
Definition loadsNothing (t : N) (path : string) : bool :=
  match LoadMayaConfig t path with
  | inl _ => false
  | inr None => true
  | inr (Some cur) => isZeroConfig cur
  end.

(** [path] loads without error. *)
Definition loads (t : N) (path : string) : bool :=
  match LoadMayaConfig t path with
  | inl _ => false
  | inr _ => true
  end.

(** The command with its [args] set, as [Run] does first. *)
Definition withArgs (c : UpCommand.t) (args : list string) : UpCommand.t :=
  {| UpCommand.Revision := UpCommand.Revision c;
     UpCommand.Version := UpCommand.Version c;
     UpCommand.VersionPrerelease := UpCommand.VersionPrerelease c;
     UpCommand.args := args |}.

(** ** Basic facts *)

Lemma rangeLevels_elem_of (minLevel : string) (levels : list string) :
  rangeLevels minLevel levels = true ↔ minLevel ∈ levels.
Proof.
  induction levels as [|level levels IH]; simpl.
  - split; [discriminate | intros H; inversion H].
  - destruct (String.eqb level minLevel) eqn:E.
    + apply String.eqb_eq in E. subst. split; [intros _; left | done].
    + apply String.eqb_neq in E. rewrite IH. split.
      * intros H. by right.
      * intros H. inversion H; subst; [congruence | done].
Qed.

Lemma setHeap_same st : setHeap (heap st) st = st.
Proof. by destruct st. Qed.

Lemma alloc_fresh cfg st : heap st !! (alloc cfg st).1 = None.
Proof. apply not_elem_of_dom, is_fresh. Qed.

Lemma alloc_ne cfg st l old :
  heap st !! l = Some old → (alloc cfg st).1 ≠ l.
Proof. intros H E. rewrite <- E, alloc_fresh in H. discriminate. Qed.

(** ** The three ways a reload ends *)

Lemma handleReload_failed c (p : ptr) st msgs :
  readMayaConfig c (now st) = (msgs, Ok None) →
  handleReload c p st =
    (Ok p,
     say (UiError "Failed to reload config")
       (says msgs (say (UiOutput "Reloading Maya server configuration...") st))).
Proof. intros H. unfold handleReload. cbn. by rewrite H. Qed.

Lemma handleReload_valid c (p : ptr) st msgs new filter :
  readMayaConfig c (now st) = (msgs, Ok (Some new)) →
  logFilter st = Some filter →
  ValidateLevelFilter (ToUpper (LogLevel new)) filter = true →
  handleReload c p st =
    (Ok (Some (alloc new st).1),
     setLogFilter (Some (SetMinLevel (ToUpper (LogLevel new)) filter))
       (setHeap (<[(alloc new st).1 := new]> (heap st))
          (says msgs (say (UiOutput "Reloading Maya server configuration...") st)))).
Proof.
  intros H Hf Hv. unfold handleReload. cbn. rewrite H. cbn.
  by rewrite Hf, Hv.
Qed.

Lemma handleReload_invalid c l st msgs old new filter :
  readMayaConfig c (now st) = (msgs, Ok (Some new)) →
  logFilter st = Some filter →
  ValidateLevelFilter (ToUpper (LogLevel new)) filter = false →
  heap st !! l = Some old →
  handleReload c (Some l) st =
    (Ok (Some (alloc new st).1),
     setHeap (<[(alloc new st).1 := withLogLevel (LogLevel old) new]> (heap st))
       (say (UiError ("Invalid log level: " +:+ ToUpper (LogLevel new)
                      +:+ ". Valid log levels are: "
                      +:+ fmtLevels (Levels filter)))
          (says msgs (say (UiOutput "Reloading Maya server configuration...") st)))).
Proof.
  intros H Hf Hv Hl. unfold handleReload. cbn. rewrite H. cbn.
  rewrite Hf, Hv. cbn.
  rewrite lookup_insert_ne by (apply (alloc_ne new st l old Hl)).
  rewrite Hl. unfold setHeap. cbn. by rewrite insert_insert_eq.
Qed.

(** ** One turn of the dispatch loop *)

Lemma handleSignals_sigpipe c (p : ptr) leave rnd a rest st :
  signalOf a = SIGPIPE →
  handleSignals c p leave rnd (a :: rest) st =
  handleSignals c p leave rnd rest (received a st).
Proof.
  intros H. unfold received. cbn [handleSignals]. fold (signalOf a). rewrite H.
  rewrite decide_True by done. reflexivity.
Qed.

Lemma handleSignals_sighup c (p : ptr) leave rnd a rest st :
  signalOf a = SIGHUP →
  handleSignals c p leave rnd (a :: rest) st =
  match handleReload c p (received a st) with
  | (Panic, st') => (Panicked, st')
  | (Ok None, st') => handleSignals c p leave rnd rest st'
  | (Ok (Some conf), st') =>
      match p, deref p st', heap st' !! conf with
      | Some m, Some _, Some v =>
          handleSignals c p leave rnd rest (setHeap (<[m := v]> (heap st')) st')
      | _, _, _ => (Panicked, st')
      end
  end.
Proof.
  intros H. unfold received. cbn [handleSignals]. fold (signalOf a). rewrite H.
  rewrite decide_False by done. rewrite decide_True by done. reflexivity.
Qed.

Lemma handleSignals_terminating c (p : ptr) leave rnd a rest st :
  signalOf a = Interrupt ∨ signalOf a = SIGTERM →
  handleSignals c p leave rnd (a :: rest) st =
  match deref p (received a st) with
  | None => (Panicked, received a st)
  | Some cfg =>
      if negb (if bool_decide (signalOf a = Interrupt) && LeaveOnInt cfg then true
               else if bool_decide (signalOf a = SIGTERM) && LeaveOnTerm cfg then true
               else false)
      then (Exit 1, received a st)
      else gracefulLeave leave rnd rest (received a st)
  end.
Proof.
  intros H. unfold received. cbn [handleSignals]. fold (signalOf a).
  destruct H as [H | H]; rewrite H; reflexivity.
Qed.

Lemma handleSignals_bail c l leave rnd a rest st cfg :
  heap st !! l = Some cfg →
  signalOf a = Interrupt ∨ signalOf a = SIGTERM →
  ¬ arms cfg a →
  handleSignals c (Some l) leave rnd (a :: rest) st = (Exit 1, received a st).
Proof.
  intros Hl Hs Hn. unfold received. cbn [handleSignals]. fold (signalOf a).
  rewrite decide_False by (destruct Hs as [-> | ->]; done).
  rewrite decide_False by (destruct Hs as [-> | ->]; done).
  cbn [deref say says tick heap]. rewrite Hl.
  unfold arms in Hn.
  destruct Hs as [Hs | Hs]; rewrite Hs in *; cbn;
    [destruct (LeaveOnInt cfg) | destruct (LeaveOnTerm cfg)]; cbn;
    try reflexivity; exfalso; apply Hn; auto.
Qed.

Lemma handleSignals_armed c l leave rnd a rest st cfg :
  heap st !! l = Some cfg →
  arms cfg a →
  handleSignals c (Some l) leave rnd (a :: rest) st =
  gracefulLeave leave rnd rest (received a st).
Proof.
  intros Hl Ha. unfold received. cbn [handleSignals]. fold (signalOf a).
  rewrite decide_False by (destruct Ha as [[-> _] | [-> _]]; done).
  rewrite decide_False by (destruct Ha as [[-> _] | [-> _]]; done).
  cbn [deref say says tick heap]. rewrite Hl.
  destruct Ha as [[-> ->] | [-> ->]]; cbn; [reflexivity |].
  by destruct (LeaveOnInt cfg).
Qed.

(** ** The final [select] *)

Lemma earliest_lower_bound (t : N) (cases : list (RaceCase * N)) :
  t ≤ gracefulTimeout →
  Forall (fun x => t < snd x) cases →
  t ≤ earliest cases.
Proof.
  intros Ht H. induction H as [|x xs Hx _ IH]; [done |].
  change (t ≤ N.min (snd x) (earliest xs)). lia.
Qed.

Lemma earliest_strict (t : N) (case : RaceCase) (pre post : list (RaceCase * N)) :
  t ≤ gracefulTimeout →
  Forall (fun x => t < snd x) pre →
  Forall (fun x => t < snd x) post →
  earliest (pre ++ (case, t) :: post) = t.
Proof.
  intros Ht Hpre Hpost.
  pose proof (earliest_lower_bound t post Ht Hpost) as Hlow.
  induction Hpre as [|x xs Hx _ IH].
  - change (N.min t (earliest post) = t). lia.
  - change (N.min (snd x) (earliest (xs ++ (case, t) :: post)) = t). lia.
Qed.

Lemma filter_later (t : N) (cases : list (RaceCase * N)) :
  Forall (fun x => t < snd x) cases →
  filter (fun x => snd x = t) cases = [].
Proof.
  induction 1 as [|x xs Hx _ IH]; [done |].
  rewrite filter_cons, IH. case_decide; [lia | done].
Qed.

(** A case that is ready strictly before the others is the one taken,
    whatever the random choice. *)
Lemma selectCase_first rnd (t : N) (case : RaceCase) (pre post : list (RaceCase * N)) :
  t ≤ gracefulTimeout →
  Forall (fun x => t < snd x) pre →
  Forall (fun x => t < snd x) post →
  selectCase rnd (pre ++ (case, t) :: post) = (case, t).
Proof.
  intros Ht Hpre Hpost. unfold selectCase.
  rewrite (earliest_strict t case pre post Ht Hpre Hpost).
  rewrite filter_app, filter_cons, !filter_later by done.
  rewrite decide_True by done. cbn [app length].
  by rewrite Nat.mod_1_r.
Qed.

Lemma gracefulLeave_done rnd (d : N) rest st :
  d < gracefulTimeout →
  (∀ t, nextSignal rest = Some t → d < t) →
  gracefulLeave (LeaveReturns d None) rnd rest st =
  (Exit 0, tick d (leaving st)).
Proof.
  intros Hd Hs. unfold gracefulLeave, readyAt.
  destruct (nextSignal rest) as [t|] eqn:E.
  - pose proof (selectCase_first rnd d LeaveDone
      [(SecondSignal, t); (TimedOut, gracefulTimeout)] []) as Hsel.
    cbn [app] in Hsel |- *. rewrite Hsel; [done | lia | | done].
    repeat constructor; cbn; [by apply Hs | done].
  - pose proof (selectCase_first rnd d LeaveDone
      [(TimedOut, gracefulTimeout)] []) as Hsel.
    cbn [app] in Hsel |- *. rewrite Hsel; [done | lia | | done].
    repeat constructor; done.
Qed.

Lemma gracefulLeave_signal leave rnd (t : N) rest st :
  nextSignal rest = Some t →
  t < gracefulTimeout →
  (∀ d, leave = LeaveReturns d None → t < d) →
  gracefulLeave leave rnd rest st =
  (Exit 1, tick t (leaveGoroutine leave t (leaving st))).
Proof.
  intros E Ht Hd. unfold gracefulLeave, readyAt. rewrite E.
  pose proof (selectCase_first rnd t SecondSignal []) as Hsel.
  cbn [app] in Hsel |- *. rewrite Hsel; [done | lia | done |].
  constructor; [done |].
  destruct leave as [|d [err|]]; [done | done |].
  constructor; [by apply Hd | done].
Qed.

Lemma gracefulLeave_timeout leave rnd rest st :
  (∀ t, nextSignal rest = Some t → gracefulTimeout < t) →
  (∀ d, leave = LeaveReturns d None → gracefulTimeout < d) →
  gracefulLeave leave rnd rest st =
  (Exit 1, tick gracefulTimeout (leaveGoroutine leave gracefulTimeout (leaving st))).
Proof.
  intros Hs Hd. unfold gracefulLeave, readyAt.
  assert (Forall (fun x : RaceCase * N => gracefulTimeout < snd x)
            match leave with
            | LeaveReturns d None => [(LeaveDone, d)]
            | _ => []
            end) as Hpost.
  { destruct leave as [|d [err|]]; [done | done |].
    constructor; [by apply Hd | done]. }
  destruct (nextSignal rest) as [t|] eqn:E.
  - pose proof (selectCase_first rnd gracefulTimeout TimedOut
      [(SecondSignal, t)]) as Hsel.
    cbn [app] in Hsel |- *. rewrite Hsel; [done | lia | | done].
    constructor; [by apply Hs | done].
  - pose proof (selectCase_first rnd gracefulTimeout TimedOut []) as Hsel.
    cbn [app] in Hsel |- *. rewrite Hsel; [done | lia | done | done].
Qed.

(** ** Shutdown *)

(** C5.  When the active configuration has [LeaveOnInt] unset, an
    interrupt, from [signalCh] or from [c.ShutdownCh], makes
    [handleSignals] return 1 at the moment it is received, and no call of
    [Leave] is started. *)
Theorem interrupt_without_leave c l cfg leave rnd a rest st :
  heap st !! l = Some cfg →
  LeaveOnInt cfg = false →
  src a = FromSignalCh SIGINT ∨ src a = FromShutdownCh →
  ∃ st',
    handleSignals c (Some l) leave rnd (a :: rest) st = (Exit 1, st')
    ∧ leaves st' = leaves st
    ∧ now st' = now st + delay a.
Proof.
  intros Hl Hint Hsrc. exists (received a st).
  split; [| done].
  assert (signalOf a = Interrupt) as Hsig
    by (unfold signalOf; destruct Hsrc as [-> | ->]; done).
  apply (handleSignals_bail c l leave rnd a rest st cfg Hl); [by left |].
  unfold arms. rewrite Hsig, Hint. intros [[_ ?] | [? _]]; done.
Qed.

(** C6.  When the active configuration has [LeaveOnInt] set and [Leave]
    returns [nil] before the grace period is over and before another value
    is sent on [signalCh], an interrupt makes [handleSignals] return 0, at the
    moment [Leave] returns. *)
Theorem graceful_leave_completes c l cfg rnd (d : N) a rest st :
  heap st !! l = Some cfg →
  LeaveOnInt cfg = true →
  src a = FromSignalCh SIGINT ∨ src a = FromShutdownCh →
  d < gracefulTimeout →
  (∀ t, nextSignal rest = Some t → d < t) →
  ∃ st',
    handleSignals c (Some l) (LeaveReturns d None) rnd (a :: rest) st = (Exit 0, st')
    ∧ leaves st' = S (leaves st)
    ∧ now st' = now st + delay a + d.
Proof.
  intros Hl Hint Hsrc Hd Hs. exists (tick d (leaving (received a st))).
  split; [| done].
  assert (signalOf a = Interrupt) as Hsig
    by (unfold signalOf; destruct Hsrc as [-> | ->]; done).
  rewrite (handleSignals_armed c l _ rnd a rest st cfg Hl) by (by left).
  by apply gracefulLeave_done.
Qed.

(** C7.  Once a graceful leave is attempted, a value sent on [signalCh]
    before the grace period is over and strictly before [Leave] returns
    [nil] makes [handleSignals] return 1 at the moment it is sent. *)
Theorem second_signal_forces_exit c l cfg leave rnd (t : N) a rest st :
  heap st !! l = Some cfg →
  arms cfg a →
  nextSignal rest = Some t →
  t < gracefulTimeout →
  (∀ d, leave = LeaveReturns d None → t < d) →
  ∃ st',
    handleSignals c (Some l) leave rnd (a :: rest) st = (Exit 1, st')
    ∧ now st' = now st + delay a + t.
Proof.
  intros Hl Ha Hs Ht Hd.
  exists (tick t (leaveGoroutine leave t (leaving (received a st)))).
  split.
  - rewrite (handleSignals_armed c l leave rnd a rest st cfg Hl Ha).
    by apply gracefulLeave_signal.
  - destruct leave as [|d' [err|]]; cbn; [done | | done].
    by destruct (d' <? t).
Qed.

(** C8.  Once a graceful leave is attempted, if [Leave] hangs or returns an
    error and nothing is sent on [signalCh], [gracefulCh] is never closed
    and [handleSignals] returns 1 when [gracefulTimeout], five seconds, has
    passed; an error [Leave] returned in the meantime is the last line on
    the console. *)
Theorem grace_period_expires c l cfg leave rnd a rest st :
  heap st !! l = Some cfg →
  arms cfg a →
  (∀ d, leave ≠ LeaveReturns d None) →
  nextSignal rest = None →
  ∃ st',
    handleSignals c (Some l) leave rnd (a :: rest) st = (Exit 1, st')
    ∧ now st' = now st + delay a + 5 * Second
    ∧ leaves st' = S (leaves st)
    ∧ readyAt leave rest = [(TimedOut, gracefulTimeout)]
    ∧ (∀ d err, leave = LeaveReturns d (Some err) → d < gracefulTimeout →
         last (ui st') = Some (UiError ("Error: " +:+ err))).
Proof.
  intros Hl Ha Hleave Hs.
  exists (tick gracefulTimeout
            (leaveGoroutine leave gracefulTimeout (leaving (received a st)))).
  split; [| split; [| split; [| split]]].
  - rewrite (handleSignals_armed c l leave rnd a rest st cfg Hl Ha).
    apply gracefulLeave_timeout.
    + intros t E. congruence.
    + intros d E. by destruct (Hleave d).
  - destruct leave as [|d' [err|]]; cbn; [done | | done].
    by destruct (d' <? gracefulTimeout).
  - destruct leave as [|d' [err|]]; cbn; [done | | done].
    by destruct (d' <? gracefulTimeout).
  - unfold readyAt. rewrite Hs.
    destruct leave as [|d' [err|]]; [done | done |]. by destruct (Hleave d').
  - intros d err -> Hd. cbn.
    destruct (N.ltb_spec d gracefulTimeout) as [_ | Hge]; [| lia].
    cbn. by rewrite last_snoc.
Qed.

(** ** Reload *)

Lemma reload_turn_invalid c l old new filter msgs leave rnd a st :
  signalOf a = SIGHUP →
  heap st !! l = Some old →
  logFilter st = Some filter →
  readMayaConfig c (now st + delay a) = (msgs, Ok (Some new)) →
  ValidateLevelFilter (ToUpper (LogLevel new)) filter = false →
  ∃ st',
    (∀ rest, handleSignals c (Some l) leave rnd (a :: rest) st =
             handleSignals c (Some l) leave rnd rest st')
    ∧ heap st' !! l = Some (withLogLevel (LogLevel old) new)
    ∧ logFilter st' = Some filter.
Proof.
  intros Hsig Hl Hf Hr Hv.
  set (l' := (alloc new (received a st)).1).
  assert (l' ≠ l) as Hne by (apply (alloc_ne new (received a st) l old Hl)).
  eexists. split.
  - intros rest.
    rewrite (handleSignals_sighup c (Some l) leave rnd a rest st Hsig).
    rewrite (handleReload_invalid c l (received a st) msgs old new filter Hr Hf Hv Hl).
    fold l'. cbn [deref heap setHeap say says].
    rewrite lookup_insert_ne by done.
    change (heap (received a st)) with (heap st).
    rewrite Hl, lookup_insert_eq. reflexivity.
  - cbn. by rewrite lookup_insert_eq.
Qed.

(** C2.  A reload whose configuration is acquired but asks for a log level
    the filter does not know: the loop goes back to waiting, the active
    configuration has the [LogLevel] of the previous active configuration
    and every other field of the acquired one, and the filter is as it
    was. *)
Theorem reload_invalid_log_level c l old new filter msgs leave rnd a st :
  src a = FromSignalCh SIGHUP →
  heap st !! l = Some old →
  logFilter st = Some filter →
  readMayaConfig c (now st + delay a) = (msgs, Ok (Some new)) →
  ValidateLevelFilter (ToUpper (LogLevel new)) filter = false →
  ∃ st' active,
    handleSignals c (Some l) leave rnd [a] st = (Blocked, st')
    ∧ (∀ rest, handleSignals c (Some l) leave rnd (a :: rest) st =
               handleSignals c (Some l) leave rnd rest st')
    ∧ heap st' !! l = Some active
    ∧ LogLevel active = LogLevel old
    ∧ Region active = Region new
    ∧ Datacenter active = Datacenter new
    ∧ DataDir active = DataDir new
    ∧ BindAddr active = BindAddr new
    ∧ EnableSyslog active = EnableSyslog new
    ∧ SyslogFacility active = SyslogFacility new
    ∧ LeaveOnInt active = LeaveOnInt new
    ∧ LeaveOnTerm active = LeaveOnTerm new
    ∧ Files active = Files new
    ∧ Revision active = Revision new
    ∧ Version active = Version new
    ∧ VersionPrerelease active = VersionPrerelease new
    ∧ Other active = Other new
    ∧ logFilter st' = Some filter.
Proof.
  intros Hsrc Hl Hf Hr Hv.
  assert (signalOf a = SIGHUP) as Hsig by (unfold signalOf; by rewrite Hsrc).
  destruct (reload_turn_invalid c l old new filter msgs leave rnd a st
              Hsig Hl Hf Hr Hv) as (st' & Hrun & Hheap & Hfilter).
  exists st', (withLogLevel (LogLevel old) new).
  split; [apply (Hrun []) |]. split; [exact Hrun |]. split; [exact Hheap |].
  repeat (split; [reflexivity |]). exact Hfilter.
Qed.

(** [withLogLevel] changes [LogLevel] and no other field. *)
Lemma withLogLevel_fields (level : string) new :
  LogLevel (withLogLevel level new) = level
  ∧ withLogLevel (LogLevel new) (withLogLevel level new) = new.
Proof. by destruct new. Qed.

(** C9.  A reload whose configuration cannot be acquired: [handleReload]
    returns the pointer it was given, "Failed to reload config" is the last
    line on the console when the loop goes back to waiting, and no
    configuration object and no filter has changed. *)
Theorem reload_failure_keeps_config c l cfg msgs leave rnd a st :
  src a = FromSignalCh SIGHUP →
  heap st !! l = Some cfg →
  readMayaConfig c (now st + delay a) = (msgs, Ok None) →
  ∃ st',
    handleReload c (Some l) (received a st) = (Ok (Some l), st')
    ∧ handleSignals c (Some l) leave rnd [a] st = (Blocked, st')
    ∧ (∀ rest, handleSignals c (Some l) leave rnd (a :: rest) st =
               handleSignals c (Some l) leave rnd rest st')
    ∧ heap st' = heap st
    ∧ logFilter st' = logFilter st
    ∧ last (ui st') = Some (UiError "Failed to reload config").
Proof.
  intros Hsrc Hl Hr.
  assert (signalOf a = SIGHUP) as Hsig by (unfold signalOf; by rewrite Hsrc).
  pose proof (handleReload_failed c (Some l) (received a st) msgs Hr) as Hreload.
  eexists. split; [exact Hreload |].
  assert (∀ rest, handleSignals c (Some l) leave rnd (a :: rest) st =
                  handleSignals c (Some l) leave rnd rest
                    (say (UiError "Failed to reload config")
                       (says msgs
                          (say (UiOutput "Reloading Maya server configuration...")
                             (received a st))))) as Hturn.
  { intros rest.
    rewrite (handleSignals_sighup c (Some l) leave rnd a rest st Hsig), Hreload.
    cbn [deref heap say says received tick]. rewrite Hl.
    rewrite insert_id by done. reflexivity. }
  split; [apply (Hturn []) |]. split; [exact Hturn |].
  split; [done |]. split; [done |].
  cbn [ui say says]. apply last_snoc.
Qed.

(** C10.  Given a configuration, [handleReload] returns a pointer that is
    not [nil] and points to a configuration.  The test [conf != nil] in
    [handleSignals] therefore always succeeds and the copy to [*mconfig]
    takes place on every reload.  When acquisition failed, the pointer is
    the one that was given and the copy changes nothing. *)
Theorem handleReload_returns_non_nil c l cfg filter st :
  heap st !! l = Some cfg →
  logFilter st = Some filter →
  (readMayaConfig c (now st)).2 ≠ Panic →
  ∃ l' v st',
    handleReload c (Some l) st = (Ok (Some l'), st')
    ∧ heap st' !! l' = Some v
    ∧ is_Some (heap st' !! l)
    ∧ (∀ a st0 leave rnd rest,
         signalOf a = SIGHUP → received a st0 = st →
         handleSignals c (Some l) leave rnd (a :: rest) st0 =
         handleSignals c (Some l) leave rnd rest
           (setHeap (<[l := v]> (heap st')) st'))
    ∧ ((readMayaConfig c (now st)).2 = Ok None →
         l' = l ∧ heap st' = heap st ∧ <[l := v]> (heap st') = heap st').
Proof.
  intros Hl Hf Hnp.
  destruct (readMayaConfig c (now st)) as [msgs r] eqn:Hr. cbn in Hnp |- *.
  assert (∀ l' v st',
    handleReload c (Some l) st = (Ok (Some l'), st') →
    heap st' !! l' = Some v → is_Some (heap st' !! l) →
    ∀ a st0 leave rnd rest,
      signalOf a = SIGHUP → received a st0 = st →
      handleSignals c (Some l) leave rnd (a :: rest) st0 =
      handleSignals c (Some l) leave rnd rest
        (setHeap (<[l := v]> (heap st')) st')) as Hturn.
  { intros l' v st' Hreload Hv [w Hw] a st0 leave rnd rest Hsig <-.
    rewrite (handleSignals_sighup c (Some l) leave rnd a rest st0 Hsig), Hreload.
    cbn [deref]. by rewrite Hw, Hv. }
  destruct r as [[new|]|]; [| | done].
  - destruct (ValidateLevelFilter (ToUpper (LogLevel new)) filter) eqn:Hv.
    + pose proof (handleReload_valid c (Some l) st msgs new filter Hr Hf Hv) as Hreload.
      assert ((alloc new st).1 ≠ l) as Hne by (apply (alloc_ne new st l cfg Hl)).
      eexists _, new, _. split; [exact Hreload |].
      split; [cbn; apply lookup_insert_eq |].
      split; [cbn; rewrite lookup_insert_ne by done; eauto |].
      split; [| done].
      apply (Hturn _ _ _ Hreload); cbn;
        [apply lookup_insert_eq | rewrite lookup_insert_ne by done; eauto].
    + pose proof (handleReload_invalid c l st msgs cfg new filter Hr Hf Hv Hl) as Hreload.
      assert ((alloc new st).1 ≠ l) as Hne by (apply (alloc_ne new st l cfg Hl)).
      eexists _, (withLogLevel (LogLevel cfg) new), _. split; [exact Hreload |].
      split; [cbn; apply lookup_insert_eq |].
      split; [cbn; rewrite lookup_insert_ne by done; eauto |].
      split; [| done].
      apply (Hturn _ _ _ Hreload); cbn;
        [apply lookup_insert_eq | rewrite lookup_insert_ne by done; eauto].
  - pose proof (handleReload_failed c (Some l) st msgs Hr) as Hreload.
    eexists l, cfg, _. split; [exact Hreload |].
    split; [exact Hl |]. split; [cbn; eauto |].
    split; [apply (Hturn _ _ _ Hreload); cbn; eauto |].
    intros _. split; [done |]. split; [done |]. cbn. by apply insert_id.
Qed.

(** ** The minimum level of the filter *)

Lemma filterValid_frame st st' :
  logFilter st' = logFilter st → filterValid st → filterValid st'.
Proof. unfold filterValid. intros ->. done. Qed.


Lemma gracefulLeave_logFilter leave rnd rest st :
  logFilter (gracefulLeave leave rnd rest st).2 = logFilter st.
Proof.
  unfold gracefulLeave. destruct (selectCase _ _) as [case t].
  assert (∀ s : @State Rest, logFilter (leaveGoroutine leave t s) = logFilter s) as E.
  { intros s. unfold leaveGoroutine.
    destruct leave as [|d [err|]]; [done | | done]. by destruct (d <? t). }
  destruct case; cbn; by rewrite E.
Qed.


Lemma setupLoggers_filterValid (p : ptr) st (syslog : bool) st1 :
  setupLoggers p st = (Ok (Some syslog), st1) → filterValid st1.
Proof.
  unfold setupLoggers. destruct (deref p _) as [cfg|]; [| done].
  cbn [MinLevel].
  destruct (ValidateLevelFilter _ _) eqn:Hv; cbn [negb]; [| done].
  assert (ToUpper (LogLevel cfg) ∈ Levels server_LevelFilter) as Hin
    by (by apply rangeLevels_elem_of).
  destruct (EnableSyslog cfg); [destruct (NewLogger _); [done |] |];
    intros [= <- <-] f [= <-]; exact Hin.
Qed.


(** ** Broken pipes while waiting *)

(** Apart from the lines "Caught signal: broken pipe", broken-pipe signals
    received by the first [select] leave no trace: the loop goes on with the
    same configuration objects, filter and count of leaves. *)
Lemma handleSignals_skips_sigpipe c (p : ptr) leave rnd (pipes rest : list Arrival) st :
  Forall (fun a => src a = FromSignalCh SIGPIPE) pipes →
  ∃ st',
    handleSignals c p leave rnd (pipes ++ rest) st =
    handleSignals c p leave rnd rest st'
    ∧ heap st' = heap st
    ∧ logFilter st' = logFilter st
    ∧ leaves st' = leaves st
    ∧ now st' = now st + elapsed pipes.
Proof.
  intros H. revert st. induction H as [|a pipes Ha _ IH]; intros st.
  - exists st. cbn [app elapsed foldr]. repeat split; try done. lia.
  - destruct (IH (received a st)) as (st' & Hrun & Hh & Hf & Hl & Hn).
    exists st'. cbn [app].
    rewrite handleSignals_sigpipe by (unfold signalOf; by rewrite Ha).
    repeat split; try done. rewrite Hn.
    change (elapsed (a :: pipes)) with (delay a + elapsed pipes).
    change (now (received a st)) with (now st + delay a). lia.
Qed.

(** What is on the console has no influence on what the loop does. *)
Lemma received_sameButUi a st st' :
  sameButUi st st' → sameButUi (received a st) (received a st').
Proof. intros (Hf & Hh & Hn & Hl). repeat split; cbn; congruence. Qed.

Lemma handleReload_sameButUi c (p : ptr) st st' :
  sameButUi st st' →
  (handleReload c p st).1 = (handleReload c p st').1
  ∧ sameButUi (handleReload c p st).2 (handleReload c p st').2.
Proof.
  destruct st as [u f h n k], st' as [u' f' h' n' k'].
  intros (Hf & Hh & Hn & Hl). cbn in Hf, Hh, Hn, Hl. subst.
  unfold handleReload. cbn.
  destruct (readMayaConfig c n') as [msgs [[new|]|]]; cbn; [| done | done].
  destruct f' as [filter|]; cbn; [| done].
  destruct (ValidateLevelFilter _ filter); cbn; [done |].
  destruct p as [l|]; cbn; [| done].
  destruct (_ !! l); done.
Qed.

Lemma gracefulLeave_sameButUi leave rnd rest st st' :
  sameButUi st st' →
  (gracefulLeave leave rnd rest st).1 = (gracefulLeave leave rnd rest st').1
  ∧ sameButUi (gracefulLeave leave rnd rest st).2 (gracefulLeave leave rnd rest st').2.
Proof.
  destruct st as [u f h n k], st' as [u' f' h' n' k'].
  intros (Hf & Hh & Hn & Hl). cbn in Hf, Hh, Hn, Hl. subst.
  unfold gracefulLeave. destruct (selectCase _ _) as [case t].
  unfold leaveGoroutine.
  destruct leave as [|d [err|]]; [| destruct (d <? t) |]; by destruct case.
Qed.

Lemma handleSignals_sameButUi c (p : ptr) leave rnd arrivals st st' :
  sameButUi st st' →
  (handleSignals c p leave rnd arrivals st).1 =
  (handleSignals c p leave rnd arrivals st').1
  ∧ sameButUi (handleSignals c p leave rnd arrivals st).2
              (handleSignals c p leave rnd arrivals st').2.
Proof.
  revert st st'. induction arrivals as [|a rest IH]; intros st st' Hsame; [done |].
  pose proof (received_sameButUi a st st' Hsame) as Hrec.
  assert (deref p (received a st) = deref p (received a st')) as Hderef.
  { destruct Hrec as (_ & Hh & _). destruct p; cbn [deref]; by rewrite ?Hh. }
  destruct (signalOf a) eqn:Hsig.
  - rewrite !handleSignals_terminating by (left; exact Hsig). rewrite Hderef. clear Hderef.
    destruct (deref p (received a st')) as [cfg|]; [| by split].
    match goal with |- context [negb ?g] => destruct g end; cbn [negb];
      [| by split].
    by apply gracefulLeave_sameButUi.
  - rewrite !handleSignals_terminating by (right; exact Hsig). rewrite Hderef. clear Hderef.
    destruct (deref p (received a st')) as [cfg|]; [| by split].
    match goal with |- context [negb ?g] => destruct g end; cbn [negb];
      [| by split].
    by apply gracefulLeave_sameButUi.
  - rewrite !handleSignals_sighup by exact Hsig.
    destruct (handleReload_sameButUi c p _ _ Hrec) as [Hres Hst].
    destruct (handleReload c p (received a st)) as [r s1],
             (handleReload c p (received a st')) as [r' s2].
    cbn [fst snd] in Hres, Hst. subst r'.
    destruct r as [[conf|]|]; [| by apply IH | by split].
    assert (heap s1 = heap s2) as Hh by (by destruct Hst as (_ & Hh & _)).
    destruct p as [m|]; [| by split]. cbn [deref]. rewrite Hh.
    destruct (heap s2 !! m); [| by split].
    destruct (heap s2 !! conf); [| by split].
    apply IH. destruct Hst as (Hf & _ & Hn & Hl). repeat split; done.
  - rewrite !handleSignals_sigpipe by exact Hsig. by apply IH.
Qed.

(** What is added to the console does not depend on what is on it. *)
Lemma handleReload_console c (p : ptr) st st' :
  sameButUi st st' →
  ∃ out,
    ui (handleReload c p st).2 = ui st ++ out
    ∧ ui (handleReload c p st').2 = ui st' ++ out.
Proof.
  destruct st as [u f h n k], st' as [u' f' h' n' k'].
  intros (Hf & Hh & Hn & Hl). cbn in Hf, Hh, Hn, Hl. subst.
  unfold handleReload. cbn.
  destruct (readMayaConfig c n') as [msgs [[new|]|]]; cbn;
    [| eexists; rewrite <- !app_assoc; split; reflexivity
     | eexists; rewrite <- !app_assoc; split; reflexivity].
  destruct f' as [filter|]; cbn;
    [| eexists; rewrite <- !app_assoc; split; reflexivity].
  destruct (ValidateLevelFilter _ filter); cbn;
    [eexists; rewrite <- !app_assoc; split; reflexivity |].
  destruct p as [l|]; cbn;
    [destruct (_ !! l); cbn |];
    eexists; rewrite <- !app_assoc; split; reflexivity.
Qed.

Lemma gracefulLeave_console leave rnd rest st st' :
  sameButUi st st' →
  ∃ out,
    ui (gracefulLeave leave rnd rest st).2 = ui st ++ out
    ∧ ui (gracefulLeave leave rnd rest st').2 = ui st' ++ out.
Proof.
  destruct st as [u f h n k], st' as [u' f' h' n' k'].
  intros _. unfold gracefulLeave. destruct (selectCase _ _) as [case t].
  unfold leaveGoroutine.
  destruct leave as [|d [err|]]; [| destruct (d <? t) | ]; destruct case; cbn;
    eexists; rewrite <- ?app_assoc; split; reflexivity.
Qed.

Lemma handleSignals_console c (p : ptr) leave rnd arrivals st st' :
  sameButUi st st' →
  ∃ out,
    ui (handleSignals c p leave rnd arrivals st).2 = ui st ++ out
    ∧ ui (handleSignals c p leave rnd arrivals st').2 = ui st' ++ out.
Proof.
  revert st st'. induction arrivals as [|a rest IH]; intros st st' Hsame.
  { exists []. cbn. by rewrite !app_nil_r. }
  pose proof (received_sameButUi a st st' Hsame) as Hrec.
  assert (deref p (received a st) = deref p (received a st')) as Hderef.
  { destruct Hrec as (_ & Hh & _). destruct p; cbn [deref]; by rewrite ?Hh. }
  assert (∀ (s s' : @State Rest) out,
    ui s = ui (received a st) ++ out → ui s' = ui (received a st') ++ out →
    ∃ out',
      ui s = ui st ++ out' ∧ ui s' = ui st' ++ out') as Hstep.
  { intros s s' out -> ->.
    exists (UiOutput ("Caught signal: " +:+ Signal_String (signalOf a)) :: out).
    cbn. by rewrite <- !app_assoc. }
  assert (∃ out',
    ui (received a st) = ui st ++ out' ∧ ui (received a st') = ui st' ++ out')
    as Hnone.
  { apply (Hstep _ _ []); by rewrite app_nil_r. }
  assert (∀ s s' : @State Rest,
    sameButUi s s' →
    (∃ out, ui s = ui (received a st) ++ out ∧ ui s' = ui (received a st') ++ out) →
    ∃ out',
      ui (handleSignals c p leave rnd rest s).2 = ui st ++ out'
      ∧ ui (handleSignals c p leave rnd rest s').2 = ui st' ++ out') as Hnext.
  { intros s s' Hs (out & Hu & Hu').
    destruct (IH s s' Hs) as (out2 & H1 & H2).
    apply (Hstep _ _ (out ++ out2)).
    - rewrite H1, Hu. by rewrite <- app_assoc.
    - rewrite H2, Hu'. by rewrite <- app_assoc. }
  assert (signalOf a = Interrupt ∨ signalOf a = SIGTERM →
    ∃ out',
      ui (handleSignals c p leave rnd (a :: rest) st).2 = ui st ++ out'
      ∧ ui (handleSignals c p leave rnd (a :: rest) st').2 = ui st' ++ out')
    as Hterm.
  { intros Hsig. rewrite !handleSignals_terminating by exact Hsig.
    rewrite Hderef. clear Hderef.
    destruct (deref p (received a st')) as [cfg|]; [| exact Hnone].
    match goal with |- context [negb ?g] => destruct g end; cbn [negb];
      [| exact Hnone].
    destruct (gracefulLeave_console leave rnd rest _ _ Hrec) as (out & Hu & Hu').
    by apply (Hstep _ _ out). }
  destruct (signalOf a) eqn:Hsig.
  - apply Hterm. by left.
  - apply Hterm. by right.
  - rewrite !handleSignals_sighup by exact Hsig.
    destruct (handleReload_sameButUi c p _ _ Hrec) as [Hres Hst].
    pose proof (handleReload_console c p _ _ Hrec) as Hout.
    destruct (handleReload c p (received a st)) as [r s1],
             (handleReload c p (received a st')) as [r' s2].
    cbn [fst snd] in Hres, Hst, Hout. subst r'.
    destruct Hout as (out & Hu & Hu').
    destruct r as [[conf|]|];
      [| apply Hnext; eauto | by apply (Hstep _ _ out)].
    assert (heap s1 = heap s2) as Hh by (by destruct Hst as (_ & Hh & _)).
    destruct p as [m|]; [| by apply (Hstep _ _ out)]. cbn [deref]. rewrite Hh.
    destruct (heap s2 !! m); [| by apply (Hstep _ _ out)].
    destruct (heap s2 !! conf); [| by apply (Hstep _ _ out)].
    apply Hnext.
    + destruct Hst as (Hf & _ & Hn & Hl). repeat split; done.
    + exists out. by split.
  - rewrite !handleSignals_sigpipe by exact Hsig.
    apply Hnext; [exact Hrec |]. exists []. by rewrite !app_nil_r.
Qed.

(** The console after broken pipes received while waiting. *)
Lemma handleSignals_skips_sigpipe_console c (p : ptr) leave rnd
    (pipes rest : list Arrival) st :
  Forall (fun a => src a = FromSignalCh SIGPIPE) pipes →
  ∃ st',
    handleSignals c p leave rnd (pipes ++ rest) st =
    handleSignals c p leave rnd rest st'
    ∧ sameButUi st' (tick (elapsed pipes) st)
    ∧ ui st' = ui st
               ++ map (fun _ => UiOutput "Caught signal: broken pipe") pipes.
Proof.
  intros H. revert st. induction H as [|a pipes Ha _ IH]; intros st.
  - exists st. cbn [app map elapsed foldr]. rewrite app_nil_r.
    repeat split; try done. cbn. lia.
  - destruct (IH (received a st)) as (st' & Hrun & (Hf & Hh & Hn & Hl) & Hu).
    exists st'. cbn [app].
    assert (signalOf a = SIGPIPE) as Hsig by (unfold signalOf; by rewrite Ha).
    rewrite handleSignals_sigpipe by exact Hsig.
    split; [exact Hrun |]. split.
    + repeat split; try done. rewrite Hn.
      change (elapsed (a :: pipes)) with (delay a + elapsed pipes).
      cbn. lia.
    + rewrite Hu. unfold received. rewrite Hsig. cbn. by rewrite <- app_assoc.
Qed.

(** X25.  While the loop waits, broken pipes are transparent: it goes on as
    if only their time had passed.  The outcome, the configurations, the
    filter, the clock and the count of leaves are the same, and the console
    differs by one line "Caught signal: broken pipe" for each of them, in
    front of what is printed afterwards. *)
Theorem sigpipe_transparent_while_waiting c (p : ptr) leave rnd
    (pipes rest : list Arrival) st :
  Forall (fun a => src a = FromSignalCh SIGPIPE) pipes →
  (handleSignals c p leave rnd (pipes ++ rest) st).1 =
  (handleSignals c p leave rnd rest (tick (elapsed pipes) st)).1
  ∧ sameButUi (handleSignals c p leave rnd (pipes ++ rest) st).2
              (handleSignals c p leave rnd rest (tick (elapsed pipes) st)).2
  ∧ ∃ out,
      ui (handleSignals c p leave rnd rest (tick (elapsed pipes) st)).2
        = ui st ++ out
      ∧ ui (handleSignals c p leave rnd (pipes ++ rest) st).2
        = ui st
          ++ map (fun _ => UiOutput "Caught signal: broken pipe") pipes
          ++ out.
Proof.
  intros Hpipes.
  destruct (handleSignals_skips_sigpipe_console c p leave rnd pipes rest st Hpipes)
    as (st' & -> & Hsame & Hu).
  destruct (handleSignals_sameButUi c p leave rnd rest _ _ Hsame) as [Ho Hs].
  split; [exact Ho |]. split; [exact Hs |].
  destruct (handleSignals_console c p leave rnd rest _ _ Hsame)
    as (out & Hu1 & Hu2).
  exists out. split; [exact Hu2 |].
  rewrite Hu1, Hu. by rewrite <- app_assoc.
Qed.

(** ** Sends on [c.ShutdownCh] during the race *)

Lemma nextSignal_shutdown_only (sends : list Arrival) :
  Forall (fun a => src a = FromShutdownCh) sends → nextSignal sends = None.
Proof.
  induction 1 as [|a sends Ha _ IH]; [done |].
  cbn. by rewrite Ha, IH.
Qed.

(** The final [select] does not see what is sent on [c.ShutdownCh]: with
    such sends only, the race runs as if nothing were sent. *)
Lemma gracefulLeave_ignores_shutdown leave rnd (sends : list Arrival) st :
  Forall (fun a => src a = FromShutdownCh) sends →
  gracefulLeave leave rnd sends st = gracefulLeave leave rnd [] st.
Proof.
  intros H. unfold gracefulLeave, readyAt.
  by rewrite (nextSignal_shutdown_only sends H).
Qed.

End Facts.

(** * The model at concrete inputs *)

(** C1.  The code at the failing input.  An interrupt arms a graceful leave
    that takes two seconds; one second later a value is sent on
    [c.ShutdownCh].  [handleSignals] does not return 1 after one second: it
    returns 0 after two, as it does when nothing is sent.  A second
    interrupt on [signalCh] at that moment does make it return 1 after one
    second. *)
Theorem shutdown_send_during_leave_is_not_received :
  Scenario.verdict (handleSignals Demo.cmd Demo.active (LeaveReturns (2 * Second) None) 0
                 [Scenario.sigint 0; Scenario.shutdown Second] (Demo.running Scenario.leaver))
    = (Exit 0, 2 * Second)
  ∧ Scenario.verdict (handleSignals Demo.cmd Demo.active (LeaveReturns (2 * Second) None) 0
                   [Scenario.sigint 0] (Demo.running Scenario.leaver))
    = (Exit 0, 2 * Second)
  ∧ Scenario.verdict (handleSignals Demo.cmd Demo.active (LeaveReturns (2 * Second) None) 0
                   [Scenario.sigint 0; Scenario.sigint Second] (Demo.running Scenario.leaver))
    = (Exit 1, Second).
Proof. repeat split; vm_compute; reflexivity. Qed.

(** C4.  The code at the failing input.  An interrupt arms a graceful leave
    that takes two seconds; one second later the process receives a broken
    pipe.  Without the broken pipe [handleSignals] returns 0 after two
    seconds; with it, 1 after one second. *)
Theorem sigpipe_during_leave_forces_exit :
  Scenario.verdict (handleSignals Demo.cmd Demo.active (LeaveReturns (2 * Second) None) 0
                 [Scenario.sigint 0; Scenario.sigpipe Second] (Demo.running Scenario.leaver))
    = (Exit 1, Second)
  ∧ Scenario.verdict (handleSignals Demo.cmd Demo.active (LeaveReturns (2 * Second) None) 0
                   [Scenario.sigint 0] (Demo.running Scenario.leaver))
    = (Exit 0, 2 * Second).
Proof. repeat split; vm_compute; reflexivity. Qed.


(** * The theorems at concrete inputs *)

(** At 15 seconds [/etc/maya.conf] asks for the unknown level [bogus] and
    region [us]; the active configuration has level [INFO] and region
    [eu]. *)
Lemma reload_invalid_log_level_witness :
  ∃ st' active,
    handleSignals Demo.cmd (Some 1%positive) LeaveHangs 0
      [Scenario.sighup (15 * Second)] (Demo.running Scenario.leaver) = (Blocked, st')
    ∧ (∀ rest,
         handleSignals Demo.cmd (Some 1%positive) LeaveHangs 0
           (Scenario.sighup (15 * Second) :: rest) (Demo.running Scenario.leaver) =
         handleSignals Demo.cmd (Some 1%positive) LeaveHangs 0 rest st')
    ∧ heap st' !! 1%positive = Some active
    ∧ LogLevel active = "INFO"
    ∧ Region active = "us"
    ∧ Datacenter active = "dc1"
    ∧ DataDir active = EmptyString
    ∧ BindAddr active = "127.0.0.1"
    ∧ EnableSyslog active = false
    ∧ SyslogFacility active = "LOCAL0"
    ∧ LeaveOnInt active = true
    ∧ LeaveOnTerm active = false
    ∧ Files active = ["/etc/maya.conf"]
    ∧ Revision active = "abc123"
    ∧ Version active = "0.0.1"
    ∧ VersionPrerelease active = "dev"
    ∧ Other active = tt
    ∧ logFilter st' = Some server_LevelFilter.
Proof.
  apply (reload_invalid_log_level Demo.cmd 1%positive Scenario.leaver
           (withVersionInfo Demo.cmd
              (Demo.merge Demo.default (Demo.fileWith "bogus" "us" true)))
           server_LevelFilter []).
  - reflexivity.
  - reflexivity.
  - reflexivity.
  - vm_compute. reflexivity.
  - vm_compute. reflexivity.
Defined.

Lemma interrupt_without_leave_witness :
  ∃ st',
    handleSignals Demo.cmd (Some 1%positive) (LeaveReturns Second None) 0
      [Scenario.shutdown Second] (Demo.running Scenario.stayer) = (Exit 1, st')
    ∧ leaves st' = leaves (Demo.running Scenario.stayer)
    ∧ now st' = now (Demo.running Scenario.stayer) + delay (Scenario.shutdown Second).
Proof.
  apply (interrupt_without_leave Demo.cmd 1%positive Scenario.stayer).
  - reflexivity.
  - reflexivity.
  - right. reflexivity.
Defined.

Lemma graceful_leave_completes_witness :
  ∃ st',
    handleSignals Demo.cmd (Some 1%positive) (LeaveReturns (2 * Second) None) 0
      [Scenario.sigint Second; Scenario.sigint (3 * Second)] (Demo.running Scenario.leaver)
      = (Exit 0, st')
    ∧ leaves st' = S (leaves (Demo.running Scenario.leaver))
    ∧ now st' = now (Demo.running Scenario.leaver) + delay (Scenario.sigint Second) + 2 * Second.
Proof.
  apply (graceful_leave_completes Demo.cmd 1%positive Scenario.leaver).
  - reflexivity.
  - reflexivity.
  - left. reflexivity.
  - vm_compute. reflexivity.
  - intros t [= <-]. vm_compute. reflexivity.
Defined.

Lemma second_signal_forces_exit_witness :
  ∃ st',
    handleSignals Demo.cmd (Some 1%positive) (LeaveReturns (2 * Second) None) 0
      [Scenario.sigint Second; Scenario.shutdown 5; Scenario.sigint Second] (Demo.running Scenario.leaver)
      = (Exit 1, st')
    ∧ now st' = now (Demo.running Scenario.leaver) + delay (Scenario.sigint Second) + (5 + Second).
Proof.
  apply (second_signal_forces_exit Demo.cmd 1%positive Scenario.leaver).
  - reflexivity.
  - left. split; reflexivity.
  - reflexivity.
  - vm_compute. reflexivity.
  - intros d [= <-]. vm_compute. reflexivity.
Defined.

(** [Leave] fails after one second, and a send on [c.ShutdownCh] follows. *)
Lemma grace_period_expires_witness :
  ∃ st',
    handleSignals Demo.cmd (Some 1%positive)
      (LeaveReturns Second (Some "no cluster leader")) 0
      [Scenario.sigint Second; Scenario.shutdown Second] (Demo.running Scenario.leaver)
      = (Exit 1, st')
    ∧ now st' = now (Demo.running Scenario.leaver) + delay (Scenario.sigint Second) + 5 * Second
    ∧ leaves st' = S (leaves (Demo.running Scenario.leaver))
    ∧ readyAt (LeaveReturns Second (Some "no cluster leader"))
        [Scenario.shutdown Second] = [(TimedOut, gracefulTimeout)]
    ∧ (∀ d err,
         LeaveReturns Second (Some "no cluster leader") = LeaveReturns d (Some err) →
         d < gracefulTimeout →
         last (ui st') = Some (UiError ("Error: " +:+ err))).
Proof.
  apply (grace_period_expires Demo.cmd 1%positive Scenario.leaver).
  - reflexivity.
  - left. split; reflexivity.
  - intros d H. discriminate H.
  - reflexivity.
Defined.

(** At 25 seconds [/etc/maya.conf] cannot be parsed. *)
Lemma reload_failure_keeps_config_witness :
  ∃ st',
    handleReload Demo.cmd (Some 1%positive)
      (received (Scenario.sighup (25 * Second)) (Demo.running Scenario.leaver))
      = (Ok (Some 1%positive), st')
    ∧ handleSignals Demo.cmd (Some 1%positive) LeaveHangs 0
        [Scenario.sighup (25 * Second)] (Demo.running Scenario.leaver) = (Blocked, st')
    ∧ (∀ rest,
         handleSignals Demo.cmd (Some 1%positive) LeaveHangs 0
           (Scenario.sighup (25 * Second) :: rest) (Demo.running Scenario.leaver) =
         handleSignals Demo.cmd (Some 1%positive) LeaveHangs 0 rest st')
    ∧ heap st' = heap (Demo.running Scenario.leaver)
    ∧ logFilter st' = logFilter (Demo.running Scenario.leaver)
    ∧ last (ui st') = Some (UiError "Failed to reload config").
Proof.
  apply (reload_failure_keeps_config Demo.cmd 1%positive Scenario.leaver
           [UiError "Error loading configuration from /etc/maya.conf: parse error"]).
  - reflexivity.
  - reflexivity.
  - vm_compute. reflexivity.
Defined.

(** A reload one second after the start, when [/etc/maya.conf] asks for
    level [debug]. *)
Lemma handleReload_returns_non_nil_witness :
  let st := received (Scenario.sighup Second) (Demo.running Scenario.leaver) in
  ∃ l' v st',
    handleReload Demo.cmd (Some 1%positive) st = (Ok (Some l'), st')
    ∧ heap st' !! l' = Some v
    ∧ is_Some (heap st' !! 1%positive)
    ∧ (∀ a st0 leave rnd rest,
         signalOf a = SIGHUP → received a st0 = st →
         handleSignals Demo.cmd (Some 1%positive) leave rnd (a :: rest) st0 =
         handleSignals Demo.cmd (Some 1%positive) leave rnd rest
           (setHeap (<[1%positive := v]> (heap st')) st'))
    ∧ ((readMayaConfig Demo.cmd (now st)).2 = Ok None →
         l' = 1%positive ∧ heap st' = heap st
         ∧ <[1%positive := v]> (heap st') = heap st').
Proof.
  apply (handleReload_returns_non_nil Demo.cmd 1%positive Scenario.leaver server_LevelFilter).
  - reflexivity.
  - reflexivity.
  - vm_compute. discriminate.
Defined.


(** * Further properties of the code *)

Section MoreFacts.

Context {Rest : Type} `{K : @Collaborators Rest}.

Implicit Types (st : @State Rest) (cfg old new : @MayaConfig Rest)
  (l : loc) (a : Arrival) (rest : list Arrival) (filter : LevelFilter).

(** ** Configuration acquisition *)

Lemma loadConfigPaths_nil t (configPath : list string) (mconfig : option (@MayaConfig Rest)) msgs :
  loadConfigPaths t configPath mconfig = (msgs, None) →
  ∃ e, last msgs = Some (UiError e).
Proof.
  revert mconfig msgs. induction configPath as [|path paths IH]; intros mconfig msgs.
  - cbn. intros [= ]. 
  - cbn. destruct (LoadMayaConfig t path) as [err | current].
    + intros [= <-]. eauto.
    + destruct (loadConfigPaths t paths _) as [ms r] eqn:E.
      intros [= <- ->]. destruct (IH _ _ E) as [e He]. exists e.
      destruct ms as [|m ms]; [discriminate He |].
      by rewrite last_app, He.
Qed.

(** A [nil] result of [readMayaConfig] comes with an error on the console;
    shared by the facts about [readMayaConfig] and about [Run]. *)
Lemma readMayaConfig_nil_last c (t : N) msgs :
  readMayaConfig c t = (msgs, Ok None) →
  ∃ e, last msgs = Some (UiError e).
Proof.
  unfold readMayaConfig.
  destruct (flagsParse _) as [[configPath cmdConfig]|]; [| intros [= <-]; eauto].
  destruct (loadConfigPaths t configPath DefaultMayaConfig) as [ms [mconfig|]] eqn:E.
  - destruct (Merge mconfig _) as [merged|]; [| discriminate].
    destruct (NormalizeAddrs _) as [err | m].
    + intros [= <-]. exists err. apply last_snoc.
    + destruct (String.eqb _ _); [discriminate |].
      destruct (IsAbs _); cbn; [discriminate |].
      intros [= <-]. eexists. apply last_snoc.
  - intros [= <-]. by apply (loadConfigPaths_nil t configPath DefaultMayaConfig).
Qed.

(** X1.  Whenever [readMayaConfig] returns [nil], the last thing it has
    done on the console is to report an error. *)
Theorem readMayaConfig_nil_is_reported c (t : N) msgs :
  readMayaConfig c t = (msgs, Ok None) →
  ∃ e, last msgs = Some (UiError e).
Proof. apply readMayaConfig_nil_last. Qed.

Lemma loadConfigPaths_warnings t (configPath : list string)
    (mconfig mconfig' : option (@MayaConfig Rest)) msgs :
  loadConfigPaths t configPath mconfig = (msgs, Some mconfig') →
  Forall (fun path => loads t path = true) configPath
  ∧ msgs = map (fun path => UiWarn ("No configuration loaded from " +:+ path))
               (filter (fun path => loadsNothing t path = true) configPath).
Proof.
  revert mconfig msgs. induction configPath as [|path paths IH]; intros mconfig msgs.
  - cbn. intros [= <- _]. by split.
  - cbn [loadConfigPaths].
    destruct (LoadMayaConfig t path) as [err | current] eqn:El; [discriminate |].
    destruct (loadConfigPaths t paths _) as [ms r] eqn:E.
    intros [= <- ->]. destruct (IH _ _ E) as [Hall ->].
    split.
    + constructor; [unfold loads; by rewrite El | done].
    + assert (loadsNothing t path =
              match current with None => true | Some cur => isZeroConfig cur end)
        as Hn by (unfold loadsNothing; by rewrite El).
      rewrite filter_cons. cbn beta. rewrite Hn.
      destruct current as [cur|]; [destruct (isZeroConfig cur) |].
      * by rewrite decide_True.
      * by rewrite decide_False.
      * by rewrite decide_True.
Qed.

(** X2.  When [readMayaConfig] returns a configuration, every path given
    with [-config] was loaded without error, and all it has done on the
    console is to warn, in order, about the paths that brought no
    configuration. *)
Theorem readMayaConfig_success_only_warns c (t : N) msgs cfg
    (configPath : list string) (cmdConfig : @MayaConfig Rest) :
  flagsParse (UpCommand.args c) = Some (configPath, cmdConfig) →
  readMayaConfig c t = (msgs, Ok (Some cfg)) →
  Forall (fun path => loads t path = true) configPath
  ∧ msgs = map (fun path => UiWarn ("No configuration loaded from " +:+ path))
               (filter (fun path => loadsNothing t path = true) configPath).
Proof.
  intros Hparse. unfold readMayaConfig. rewrite Hparse.
  destruct (loadConfigPaths t configPath DefaultMayaConfig) as [ms [mconfig|]] eqn:E;
    [| discriminate].
  pose proof (loadConfigPaths_warnings t configPath _ _ _ E) as Hw.
  destruct (Merge mconfig _) as [merged|]; [| discriminate].
  destruct (NormalizeAddrs _) as [err | m]; [discriminate |].
  destruct (String.eqb _ _); [by intros [= <- _] |].
  destruct (IsAbs _); cbn; [by intros [= <- _] | discriminate].
Qed.

(** X3.  A configuration that [readMayaConfig] returns has an empty or an
    absolute [DataDir]. *)
Theorem readMayaConfig_data_dir_absolute c (t : N) msgs cfg :
  readMayaConfig c t = (msgs, Ok (Some cfg)) →
  DataDir cfg = EmptyString ∨ IsAbs (DataDir cfg) = true.
Proof.
  unfold readMayaConfig.
  destruct (flagsParse _) as [[configPath cmdConfig]|]; [| discriminate].
  destruct (loadConfigPaths t configPath DefaultMayaConfig) as [ms [mconfig|]];
    [| discriminate].
  destruct (Merge mconfig _) as [merged|]; [| discriminate].
  destruct (NormalizeAddrs _) as [err | m]; [discriminate |].
  destruct (String.eqb (DataDir m) EmptyString) eqn:Hd.
  - intros [= _ <-]. left. by apply String.eqb_eq.
  - destruct (IsAbs (DataDir m)) eqn:Ha; cbn; [| discriminate].
    intros [= _ <-]. by right.
Qed.

(** X4.  The first path that fails to load ends [readMayaConfig]: the result
    is [nil], the last line on the console names that path and its error,
    and the paths after it are not looked at. *)
Theorem readMayaConfig_stops_at_first_error c (t : N)
    (before after : list string) (path err : string)
    (cmdConfig : @MayaConfig Rest) :
  flagsParse (UpCommand.args c) = Some (before ++ path :: after, cmdConfig) →
  Forall (fun q => loads t q = true) before →
  LoadMayaConfig t path = inl err →
  (readMayaConfig c t).2 = Ok None
  ∧ (readMayaConfig c t).1 =
      map (fun q => UiWarn ("No configuration loaded from " +:+ q))
          (filter (fun q => loadsNothing t q = true) before)
      ++ [UiError ("Error loading configuration from " +:+ path +:+ ": " +:+ err)].
Proof.
  intros Hparse Hbefore Herr. unfold readMayaConfig. rewrite Hparse.
  clear Hparse.
  assert (∀ mconfig : option (@MayaConfig Rest),
    loadConfigPaths t (before ++ path :: after) mconfig =
      (map (fun q => UiWarn ("No configuration loaded from " +:+ q))
           (filter (fun q => loadsNothing t q = true) before)
       ++ [UiError ("Error loading configuration from " +:+ path +:+ ": " +:+ err)],
       None)) as Hloop.
  { induction Hbefore as [|q before Hq _ IH]; intros mconfig.
    - cbn [app loadConfigPaths]. by rewrite Herr.
    - cbn [app loadConfigPaths]. unfold loads in Hq.
      destruct (LoadMayaConfig t q) as [e | current] eqn:El; [discriminate |].
      assert (loadsNothing t q =
              match current with None => true | Some cur => isZeroConfig cur end)
        as Hn by (unfold loadsNothing; by rewrite El).
      rewrite filter_cons. cbn beta. rewrite Hn, IH.
      destruct current as [cur|]; [destruct (isZeroConfig cur) |].
      + by rewrite decide_True.
      + by rewrite decide_False.
      + by rewrite decide_True. }
  by rewrite Hloop.
Qed.

(** ** Logger setup *)

(** What [setupLoggers] does to the state, case by case; shared by the
    facts about [setupLoggers] and about [Run]. *)
Lemma setupLoggers_cases (p : ptr) st cfg :
  deref p st = Some cfg →
  ∃ r st',
    setupLoggers p st = (Ok r, st')
    ∧ heap st' = heap st ∧ now st' = now st ∧ leaves st' = leaves st
    ∧ logFilter st' =
        Some {| Levels := Levels server_LevelFilter;
                MinLevel := ToUpper (LogLevel cfg) |}
    ∧ match r with
      | Some syslog =>
          ui st' = ui st ∧ syslog = EnableSyslog cfg
          ∧ ToUpper (LogLevel cfg) ∈ Levels server_LevelFilter
      | None => ∃ e, ui st' = ui st ++ [UiError e]
      end.
Proof.
  intros Hp. unfold setupLoggers.
  change (deref p (setLogFilter (Some server_LevelFilter) st)) with (deref p st).
  rewrite Hp. cbn [MinLevel Levels].
  destruct (ValidateLevelFilter _ _) eqn:Hv; cbn [negb].
  - assert (ToUpper (LogLevel cfg) ∈ Levels server_LevelFilter) as Hin
      by (by apply rangeLevels_elem_of).
    destruct (EnableSyslog cfg); [destruct (NewLogger _) as [err|] |].
    + eexists None, _. repeat split; eauto.
    + eexists (Some true), _. repeat split; eauto.
    + eexists (Some false), _. repeat split; eauto.
  - eexists None, _. repeat split; eauto.
Qed.

(** X5.  Given a configuration, [setupLoggers] does not panic.  It replaces
    whatever filter there was by one with the levels of
    [server.LevelFilter()] and the upper-cased [LogLevel] as minimum, and
    touches no configuration object.  It returns [nil] writers exactly when
    it reports an error, and prints nothing otherwise; the syslog writer is
    part of the output exactly when [EnableSyslog] is set. *)
Theorem setupLoggers_reports_or_succeeds (p : ptr) st cfg :
  deref p st = Some cfg →
  ∃ r st',
    setupLoggers p st = (Ok r, st')
    ∧ heap st' = heap st ∧ now st' = now st ∧ leaves st' = leaves st
    ∧ logFilter st' =
        Some {| Levels := Levels server_LevelFilter;
                MinLevel := ToUpper (LogLevel cfg) |}
    ∧ match r with
      | Some syslog =>
          ui st' = ui st ∧ syslog = EnableSyslog cfg
          ∧ ToUpper (LogLevel cfg) ∈ Levels server_LevelFilter
      | None => ∃ e, ui st' = ui st ++ [UiError e]
      end.
Proof. apply setupLoggers_cases. Qed.

(** ** Reload *)

Lemma reload_turn_valid c l old new filter msgs a st :
  signalOf a = SIGHUP →
  heap st !! l = Some old →
  logFilter st = Some filter →
  readMayaConfig c (now st + delay a) = (msgs, Ok (Some new)) →
  ValidateLevelFilter (ToUpper (LogLevel new)) filter = true →
  ∃ st',
    (∀ leave rnd rest,
       handleSignals c (Some l) leave rnd (a :: rest) st =
       handleSignals c (Some l) leave rnd rest st')
    ∧ heap st' !! l = Some new
    ∧ logFilter st' =
        Some {| Levels := Levels filter; MinLevel := ToUpper (LogLevel new) |}
    ∧ leaves st' = leaves st
    ∧ now st' = now st + delay a.
Proof.
  intros Hsig Hl Hf Hr Hv.
  set (l' := (alloc new (received a st)).1).
  assert (l' ≠ l) as Hne by (apply (alloc_ne new (received a st) l old Hl)).
  eexists. split.
  - intros leave rnd rest.
    rewrite (handleSignals_sighup c (Some l) leave rnd a rest st Hsig).
    rewrite (handleReload_valid c (Some l) (received a st) msgs new filter Hr Hf Hv).
    fold l'. cbn [deref heap setHeap setLogFilter say says].
    rewrite lookup_insert_ne by done.
    change (heap (received a st)) with (heap st).
    rewrite Hl, lookup_insert_eq. reflexivity.
  - cbn. by rewrite lookup_insert_eq.
Qed.

(** X6.  A reload whose configuration is acquired and asks for a level the
    filter knows: the loop goes back to waiting, the active configuration is
    the acquired one, [LogLevel] as written included, and the minimum level
    of the filter is the upper-cased level; the levels of the filter, the
    clock and the count of leaves are as after any other arrival. *)
Theorem reload_valid_log_level c l old new filter msgs a st :
  src a = FromSignalCh SIGHUP →
  heap st !! l = Some old →
  logFilter st = Some filter →
  readMayaConfig c (now st + delay a) = (msgs, Ok (Some new)) →
  ValidateLevelFilter (ToUpper (LogLevel new)) filter = true →
  ∃ st',
    (∀ leave rnd rest,
       handleSignals c (Some l) leave rnd (a :: rest) st =
       handleSignals c (Some l) leave rnd rest st')
    ∧ heap st' !! l = Some new
    ∧ logFilter st' =
        Some {| Levels := Levels filter; MinLevel := ToUpper (LogLevel new) |}
    ∧ leaves st' = leaves st
    ∧ now st' = now st + delay a.
Proof.
  intros Hsrc. apply reload_turn_valid. unfold signalOf. by rewrite Hsrc.
Qed.

(** ** What the dispatch loop keeps *)

(** A property of the state that every step of [handleSignals] keeps holds
    when it stops. *)
Lemma handleSignals_invariant (P : @State Rest → Prop) c (p : ptr) leave rnd :
  (∀ a st, P st → P (received a st)) →
  (∀ st, P st → P (handleReload c p st).2) →
  (∀ st m conf v, P st → p = Some m → is_Some (heap st !! m) →
     heap st !! conf = Some v → P (setHeap (<[m := v]> (heap st)) st)) →
  (∀ rest st, P st → P (gracefulLeave leave rnd rest st).2) →
  ∀ arrivals st, P st → P (handleSignals c p leave rnd arrivals st).2.
Proof.
  intros Hrec Hreload Hcopy Hleave arrivals.
  induction arrivals as [|a rest IH]; intros st Hst; [done |].
  pose proof (Hrec a st Hst) as Hr.
  destruct (signalOf a) eqn:Hsig.
  - rewrite handleSignals_terminating by (left; exact Hsig).
    destruct (deref p (received a st)) as [cfg|]; [| exact Hr].
    match goal with |- context [negb ?g] => destruct g end; cbn [negb];
      [by apply Hleave | exact Hr].
  - rewrite handleSignals_terminating by (right; exact Hsig).
    destruct (deref p (received a st)) as [cfg|]; [| exact Hr].
    match goal with |- context [negb ?g] => destruct g end; cbn [negb];
      [by apply Hleave | exact Hr].
  - rewrite (handleSignals_sighup c p leave rnd a rest st Hsig).
    pose proof (Hreload (received a st) Hr) as Hre.
    destruct (handleReload c p (received a st)) as [[[conf|]|] st'];
      cbn [snd] in Hre; [| by apply IH | exact Hre].
    destruct p as [m|]; [| exact Hre]. cbn [deref].
    destruct (heap st' !! m) as [w|] eqn:Hm; [| exact Hre].
    destruct (heap st' !! conf) as [v|] eqn:Hc; [| exact Hre].
    apply IH. by apply (Hcopy st' m conf v).
  - rewrite (handleSignals_sigpipe c p leave rnd a rest st Hsig). by apply IH.
Qed.

Lemma gracefulLeave_heap leave rnd rest st :
  heap (gracefulLeave leave rnd rest st).2 = heap st.
Proof.
  unfold gracefulLeave. destruct (selectCase _ _) as [case t].
  assert (∀ s : @State Rest, heap (leaveGoroutine leave t s) = heap s) as E.
  { intros s. unfold leaveGoroutine.
    destruct leave as [|d [err|]]; [done | | done]. by destruct (d <? t). }
  destruct case; cbn; by rewrite E.
Qed.

Lemma handleReload_levels c (p : ptr) st filter :
  logFilter st = Some filter →
  ∃ filter', logFilter (handleReload c p st).2 = Some filter'
             ∧ Levels filter' = Levels filter.
Proof.
  intros Hf. unfold handleReload.
  destruct (readMayaConfig c _) as [msgs [[new|]|]]; [| by eauto | by eauto].
  cbn. rewrite Hf.
  destruct (ValidateLevelFilter _ filter); [by eauto |].
  cbn. destruct p as [l|]; cbn; [destruct (_ !! l) |]; by eauto.
Qed.

(** X7.  Whatever [handleSignals] receives, the filter stays in place and
    its list of levels is never changed: a reload can only move the minimum
    level. *)
Theorem handleSignals_keeps_levels c (p : ptr) leave rnd arrivals st filter :
  logFilter st = Some filter →
  ∃ filter',
    logFilter (handleSignals c p leave rnd arrivals st).2 = Some filter'
    ∧ Levels filter' = Levels filter.
Proof.
  intros Hf.
  apply (handleSignals_invariant
           (fun s => ∃ filter', logFilter s = Some filter'
                                ∧ Levels filter' = Levels filter) c p leave rnd).
  - intros a s H. exact H.
  - intros s (f & Hs & Hl).
    destruct (handleReload_levels c p s f Hs) as (f' & Hs' & Hl').
    exists f'. split; [done | congruence].
  - intros s m conf v H _ _ _. exact H.
  - intros rest s H. by rewrite gracefulLeave_logFilter.
  - by exists filter.
Qed.

Lemma handleReload_heap_mono c (p : ptr) st l v :
  heap st !! l = Some v → heap (handleReload c p st).2 !! l = Some v.
Proof.
  intros Hl. unfold handleReload.
  destruct (readMayaConfig c _) as [msgs [[new|]|]]; [| done | done].
  set (s := says msgs (say (UiOutput "Reloading Maya server configuration...") st)).
  assert ((alloc new s).1 ≠ l) as Hne by (apply (alloc_ne new s l v Hl)).
  cbn [alloc fst snd]. cbn [logFilter setHeap].
  destruct (logFilter s) as [filter|]; [| cbn; by rewrite lookup_insert_ne].
  destruct (ValidateLevelFilter _ filter); [cbn; by rewrite lookup_insert_ne |].
  destruct (deref p _); cbn; by rewrite ?lookup_insert_ne by done.
Qed.

(** X8.  The only configuration object [handleSignals] ever writes to is the
    active one: any other object that exists when it starts is unchanged
    when it stops, through any number of reloads. *)
Theorem handleSignals_writes_active_only c l leave rnd arrivals st l' v :
  l' ≠ l →
  heap st !! l' = Some v →
  heap (handleSignals c (Some l) leave rnd arrivals st).2 !! l' = Some v.
Proof.
  intros Hne Hl'.
  apply (handleSignals_invariant (fun s => heap s !! l' = Some v)
           c (Some l) leave rnd).
  - intros a s H. exact H.
  - intros s H. by apply handleReload_heap_mono.
  - intros s m conf w H [= <-] _ _. cbn. by rewrite lookup_insert_ne.
  - intros rest s H. by rewrite gracefulLeave_heap.
  - exact Hl'.
Qed.

(** ** The final [select], whatever is ready *)

Lemma earliest_le_timeout (cases : list (RaceCase * N)) :
  earliest cases ≤ gracefulTimeout.
Proof.
  induction cases as [|x xs IH]; [done |].
  change (N.min (snd x) (earliest xs) ≤ gracefulTimeout). lia.
Qed.

Lemma selectCase_ready rnd (cases : list (RaceCase * N)) :
  selectCase rnd cases ∈ cases ∧ (selectCase rnd cases).2 = earliest cases
  ∨ selectCase rnd cases = (TimedOut, gracefulTimeout).
Proof.
  unfold selectCase.
  set (ready := filter (fun x : RaceCase * N => x.2 = earliest cases) cases).
  destruct ready as [|x xs] eqn:E; [right; by destruct (rnd mod _)%nat |]. left.
  assert (nth (rnd mod length (x :: xs)) (x :: xs) (TimedOut, gracefulTimeout)
            ∈ ready) as Hin.
  { rewrite E. apply list_elem_of_In, nth_In.
    apply Nat.mod_upper_bound. done. }
  apply list_elem_of_filter in Hin. destruct Hin as [Ht Hin]. done.
Qed.

Lemma readyAt_LeaveDone leave rest (t : N) :
  (LeaveDone, t) ∈ readyAt leave rest → leave = LeaveReturns t None.
Proof.
  unfold readyAt. rewrite !elem_of_app.
  intros [H | [H | H]].
  - destruct (nextSignal rest); [| by inversion H].
    apply list_elem_of_singleton in H. discriminate H.
  - apply list_elem_of_singleton in H. discriminate H.
  - destruct leave as [|d [err|]]; [by inversion H | by inversion H |].
    apply list_elem_of_singleton in H. by injection H as ->.
Qed.

(** How the final [select] can end; shared by the facts about the race
    and about the whole loop. *)
Lemma gracefulLeave_cases leave rnd rest st :
  ∃ code (t : N) st',
    gracefulLeave leave rnd rest st = (Exit code, st')
    ∧ t ≤ gracefulTimeout
    ∧ now st' = now st + t
    ∧ leaves st' = S (leaves st)
    ∧ logFilter st' = logFilter st ∧ heap st' = heap st
    ∧ (code = 1%Z ∨ code = 0%Z ∧ leave = LeaveReturns t None).
Proof.
  pose proof (gracefulLeave_logFilter leave rnd rest st) as Hf.
  pose proof (gracefulLeave_heap leave rnd rest st) as Hh.
  unfold gracefulLeave in *.
  pose proof (selectCase_ready rnd (readyAt leave rest)) as Hsel.
  pose proof (earliest_le_timeout (readyAt leave rest)) as Hle.
  destruct (selectCase rnd (readyAt leave rest)) as [case t].
  assert (t ≤ gracefulTimeout) as Ht.
  { destruct Hsel as [[_ Hsel] | [= _ ->]]; [cbn in Hsel; lia | lia]. }
  assert (case = LeaveDone → leave = LeaveReturns t None) as Hdone.
  { intros ->. destruct Hsel as [[Hin _] | [= ]].
    by apply (readyAt_LeaveDone leave rest). }
  assert (∀ s : @State Rest,
    now (leaveGoroutine leave t s) = now s
    ∧ leaves (leaveGoroutine leave t s) = leaves s) as Hg.
  { intros s. unfold leaveGoroutine.
    destruct leave as [|d [err|]]; [done | | done]. by destruct (d <? t). }
  destruct case; eexists _, t, _; (split; [reflexivity |]);
    cbn [now leaves tick]; rewrite !(proj1 (Hg _)), !(proj2 (Hg _));
    cbn in Hf, Hh; repeat split; try done; auto.
Qed.

(** X9.  An attempted graceful leave always ends, with 0 or 1, no later than
    [gracefulTimeout] after it began, whatever [Leave] does, whatever is
    sent and whichever ready case the [select] picks; it ends with 0 only
    when [Leave] has returned [nil] by then.  It starts [Leave] once and
    touches neither the filter nor a configuration. *)
Theorem gracefulLeave_bounded leave rnd rest st :
  ∃ code (t : N) st',
    gracefulLeave leave rnd rest st = (Exit code, st')
    ∧ t ≤ gracefulTimeout
    ∧ now st' = now st + t
    ∧ leaves st' = S (leaves st)
    ∧ logFilter st' = logFilter st ∧ heap st' = heap st
    ∧ (code = 1%Z ∨ code = 0%Z ∧ leave = LeaveReturns t None).
Proof. apply gracefulLeave_cases. Qed.

(** ** How the dispatch loop can end *)

Lemma handleReload_clock c (p : ptr) st :
  now (handleReload c p st).2 = now st
  ∧ leaves (handleReload c p st).2 = leaves st.
Proof.
  unfold handleReload.
  destruct (readMayaConfig c _) as [msgs [[new|]|]]; [| done | done].
  cbn. destruct (logFilter st) as [filter|]; [| done].
  destruct (ValidateLevelFilter _ filter); [done |].
  cbn. by destruct (deref p _).
Qed.

Lemma handleSignals_outcome c (p : ptr) leave rnd arrivals st o st' :
  handleSignals c p leave rnd arrivals st = (o, st') →
  match o with
  | Blocked =>
      leaves st' = leaves st ∧ now st' = now st + elapsed arrivals
      ∧ Forall (fun b => signalOf b = SIGHUP ∨ signalOf b = SIGPIPE) arrivals
  | Panicked => leaves st' = leaves st
  | Exit code =>
      now st' ≤ now st + elapsed arrivals + gracefulTimeout
      ∧ (code = 1%Z ∧ leaves st' = leaves st
         ∨ leaves st' = S (leaves st)
           ∧ (code = 1%Z
              ∨ code = 0%Z
                ∧ ∃ d : N, leave = LeaveReturns d None ∧ d ≤ gracefulTimeout))
  end.
Proof.
  revert st. induction arrivals as [|a rest IH]; intros st.
  { intros [= <- <-]. cbn [elapsed foldr]. repeat split; [lia | done]. }
  assert (∀ s : @State Rest,
    leaves s = leaves st → now s = now st + delay a →
    handleSignals c p leave rnd rest s = (o, st') →
    match o with
    | Blocked =>
        leaves st' = leaves st ∧ now st' = now st + elapsed (a :: rest)
        ∧ Forall (fun b => signalOf b = SIGHUP ∨ signalOf b = SIGPIPE) rest
    | Panicked => leaves st' = leaves st
    | Exit code =>
        now st' ≤ now st + elapsed (a :: rest) + gracefulTimeout
        ∧ (code = 1%Z ∧ leaves st' = leaves st
           ∨ leaves st' = S (leaves st)
             ∧ (code = 1%Z
                ∨ code = 0%Z
                  ∧ ∃ d : N, leave = LeaveReturns d None ∧ d ≤ gracefulTimeout))
    end) as Hnext.
  { intros s Hl Hn Hrun. specialize (IH s Hrun).
    change (elapsed (a :: rest)) with (delay a + elapsed rest).
    destruct o as [code | |]; rewrite ?Hl, ?Hn in IH.
    - destruct IH as [Ht IH]. split; [lia | exact IH].
    - destruct IH as (? & Ht & ?). repeat split; [done | lia | done].
    - exact IH. }
  assert (∀ s : @State Rest,
    now s = now st + delay a →
    now s ≤ now st + elapsed (a :: rest) + gracefulTimeout) as Hbail.
  { intros s ->. change (elapsed (a :: rest)) with (delay a + elapsed rest).
    lia. }
  assert (signalOf a = Interrupt ∨ signalOf a = SIGTERM →
          handleSignals c p leave rnd (a :: rest) st = (o, st') →
          match o with
          | Blocked => False
          | Panicked => leaves st' = leaves st
          | Exit code =>
              now st' ≤ now st + elapsed (a :: rest) + gracefulTimeout
              ∧ (code = 1%Z ∧ leaves st' = leaves st
                 ∨ leaves st' = S (leaves st)
                   ∧ (code = 1%Z
                      ∨ code = 0%Z
                        ∧ ∃ d : N, leave = LeaveReturns d None ∧ d ≤ gracefulTimeout))
          end) as Hterm.
  { intros Hsig. rewrite handleSignals_terminating by exact Hsig.
    destruct (deref p (received a st)) as [cfg|]; [| by intros [= <- <-]].
    match goal with |- context [negb ?g] => destruct g end; cbn [negb].
    - destruct (gracefulLeave_cases leave rnd rest (received a st))
        as (code & t & s & -> & Ht & Hn & Hl & _ & _ & Hcode).
      intros [= <- <-]. split.
      + rewrite Hn. change (elapsed (a :: rest)) with (delay a + elapsed rest).
        change (now (received a st)) with (now st + delay a). lia.
      + right. split; [exact Hl |].
        destruct Hcode as [-> | [-> ->]]; [by left | right; eauto].
    - intros [= <- <-]. split; [by apply Hbail | by left]. }
  destruct (signalOf a) eqn:Hsig.
  - intros Hrun. specialize (Hterm (or_introl eq_refl) Hrun).
    by destruct o.
  - intros Hrun. specialize (Hterm (or_intror eq_refl) Hrun).
    by destruct o.
  - rewrite (handleSignals_sighup c p leave rnd a rest st Hsig).
    destruct (handleReload_clock c p (received a st)) as [Hn Hl].
    destruct (handleReload c p (received a st)) as [[[conf|]|] s];
      cbn [snd] in Hn, Hl.
    + destruct p as [m|]; [| by intros [= <- <-]]. cbn [deref].
      destruct (heap s !! m); [| by intros [= <- <-]].
      destruct (heap s !! conf); [| by intros [= <- <-]].
      intros Hrun. apply Hnext in Hrun; [| done | done].
      destruct o; [done | | done].
      destruct Hrun as (? & ? & ?). repeat split; try done.
      constructor; [by left | done].
    + intros Hrun. apply Hnext in Hrun; [| done | done].
      destruct o; [done | | done].
      destruct Hrun as (? & ? & ?). repeat split; try done.
      constructor; [by left | done].
    + by intros [= <- <-].
  - rewrite (handleSignals_sigpipe c p leave rnd a rest st Hsig).
    intros Hrun. apply Hnext in Hrun; [| done | done].
    destruct o; [done | | done].
    destruct Hrun as (? & ? & ?). repeat split; try done.
    constructor; [by right | done].
Qed.

(** X10.  [handleSignals] returns 0 or 1, and 0 only after it has started
    [Leave] and [Leave] has returned [nil] within [gracefulTimeout]. *)
Theorem handleSignals_exit_codes c (p : ptr) leave rnd arrivals st code st' :
  handleSignals c p leave rnd arrivals st = (Exit code, st') →
  code = 1%Z
  ∨ code = 0%Z ∧ leaves st' = S (leaves st)
    ∧ ∃ d : N, leave = LeaveReturns d None ∧ d ≤ gracefulTimeout.
Proof.
  intros Hrun. apply handleSignals_outcome in Hrun.
  destruct Hrun as [_ [[-> _] | [Hl [-> | [-> Hd]]]]]; auto.
Qed.

(** X11.  [handleSignals] starts [Leave] at most once, and only on the
    arrival that makes it return: while it waits, and when it panics, no
    [Leave] has been started. *)
Theorem leave_started_at_most_once c (p : ptr) leave rnd arrivals st o st' :
  handleSignals c p leave rnd arrivals st = (o, st') →
  leaves st' = leaves st
  ∨ leaves st' = S (leaves st) ∧ ∃ code, o = Exit code.
Proof.
  intros Hrun. apply handleSignals_outcome in Hrun.
  destruct o as [code | |].
  - destruct Hrun as [_ [[_ Hl] | [Hl _]]]; [by left | right; eauto].
  - left. by destruct Hrun.
  - by left.
Qed.

(** X12.  [handleSignals] returns no later than [gracefulTimeout] after the
    last arrival it was given. *)
Theorem handleSignals_exit_time c (p : ptr) leave rnd arrivals st code st' :
  handleSignals c p leave rnd arrivals st = (Exit code, st') →
  now st' ≤ now st + elapsed arrivals + gracefulTimeout.
Proof.
  intros Hrun. apply handleSignals_outcome in Hrun. by destruct Hrun.
Qed.

(** X13.  When [handleSignals] is still waiting after all arrivals, each of
    them was a hangup or a broken pipe, and the clock has advanced by
    exactly their delays. *)
Theorem handleSignals_waiting c (p : ptr) leave rnd arrivals st st' :
  handleSignals c p leave rnd arrivals st = (Blocked, st') →
  Forall (fun b => src b = FromSignalCh SIGHUP ∨ src b = FromSignalCh SIGPIPE)
         arrivals
  ∧ now st' = now st + elapsed arrivals.
Proof.
  intros Hrun. apply handleSignals_outcome in Hrun.
  destruct Hrun as (_ & Hn & Hall). split; [| exact Hn].
  eapply Forall_impl; [exact Hall |].
  intros b. unfold signalOf.
  destruct (src b) as [s|]; [| intros [[=] | [=]]].
  intros [-> | ->]; auto.
Qed.

(** X14.  Hangups and broken pipes never end the loop.  When the active
    configuration exists, the filter is set and configuration acquisition
    does not crash, [handleSignals] is still waiting after any number of
    them, with an active configuration and a filter in place. *)
Theorem hangups_never_exit c l cfg filter leave rnd arrivals st :
  (∀ t, (readMayaConfig c t).2 ≠ Panic) →
  heap st !! l = Some cfg →
  logFilter st = Some filter →
  Forall (fun b => src b = FromSignalCh SIGHUP ∨ src b = FromSignalCh SIGPIPE)
         arrivals →
  ∃ st',
    handleSignals c (Some l) leave rnd arrivals st = (Blocked, st')
    ∧ is_Some (heap st' !! l) ∧ is_Some (logFilter st').
Proof.
  intros Hnp Hl Hf Hall. revert st cfg filter Hl Hf.
  induction Hall as [|a rest Ha _ IH]; intros st cfg filter Hl Hf.
  { exists st. cbn. eauto. }
  destruct Ha as [Ha | Ha].
  - assert (signalOf a = SIGHUP) as Hsig by (unfold signalOf; by rewrite Ha).
    destruct (readMayaConfig c (now st + delay a)) as [msgs r] eqn:Hr.
    destruct r as [[new|]|].
    + destruct (ValidateLevelFilter (ToUpper (LogLevel new)) filter) eqn:Hv.
      * destruct (reload_turn_valid c l cfg new filter msgs a st Hsig Hl Hf Hr Hv)
          as (s & Hrun & Hl' & Hf' & _).
        rewrite Hrun. by eapply IH.
      * destruct (reload_turn_invalid c l cfg new filter msgs leave rnd a st
                    Hsig Hl Hf Hr Hv) as (s & Hrun & Hl' & Hf').
        rewrite Hrun. by eapply IH.
    + rewrite (handleSignals_sighup c (Some l) leave rnd a rest st Hsig).
      rewrite (handleReload_failed c (Some l) (received a st) msgs Hr).
      cbn [deref heap say says received tick]. rewrite Hl.
      eapply IH; [apply lookup_insert_eq | exact Hf].
    + specialize (Hnp (now st + delay a)). rewrite Hr in Hnp. by destruct Hnp.
  - assert (signalOf a = SIGPIPE) as Hsig by (unfold signalOf; by rewrite Ha).
    rewrite (handleSignals_sigpipe c (Some l) leave rnd a rest st Hsig).
    by eapply IH.
Qed.

(** ** Which signals leave gracefully *)

(** X15.  A terminate signal looks at [LeaveOnTerm] only: when it is unset,
    [handleSignals] returns 1 at once and starts no [Leave], also when
    [LeaveOnInt] is set. *)
Theorem terminate_without_leave c l cfg leave rnd a rest st :
  heap st !! l = Some cfg →
  LeaveOnTerm cfg = false →
  src a = FromSignalCh SIGTERM →
  ∃ st',
    handleSignals c (Some l) leave rnd (a :: rest) st = (Exit 1, st')
    ∧ leaves st' = leaves st
    ∧ now st' = now st + delay a.
Proof.
  intros Hl Hterm Hsrc. exists (received a st). split; [| done].
  assert (signalOf a = SIGTERM) as Hsig by (unfold signalOf; by rewrite Hsrc).
  apply (handleSignals_bail c l leave rnd a rest st cfg Hl); [by right |].
  unfold arms. rewrite Hsig, Hterm. intros [[? _] | [_ ?]]; done.
Qed.

(** X16.  With [LeaveOnTerm] set, a terminate signal leaves gracefully:
    when [Leave] returns [nil] before the grace period is over and before
    another value is sent on [signalCh], [handleSignals] returns 0 at that
    moment, whatever [LeaveOnInt] is. *)
Theorem graceful_leave_on_terminate c l cfg rnd (d : N) a rest st :
  heap st !! l = Some cfg →
  LeaveOnTerm cfg = true →
  src a = FromSignalCh SIGTERM →
  d < gracefulTimeout →
  (∀ t, nextSignal rest = Some t → d < t) →
  ∃ st',
    handleSignals c (Some l) (LeaveReturns d None) rnd (a :: rest) st = (Exit 0, st')
    ∧ leaves st' = S (leaves st)
    ∧ now st' = now st + delay a + d.
Proof.
  intros Hl Hterm Hsrc Hd Hs. exists (tick d (leaving (received a st))).
  split; [| done].
  assert (signalOf a = SIGTERM) as Hsig by (unfold signalOf; by rewrite Hsrc).
  rewrite (handleSignals_armed c l _ rnd a rest st cfg Hl) by (by right).
  by apply gracefulLeave_done.
Qed.

(** X17.  A [Leave] that returns [nil] only after the grace period comes
    too late: with nothing sent on [signalCh] in the meantime,
    [handleSignals] returns 1 when [gracefulTimeout] has passed. *)
Theorem late_leave_is_discarded c l cfg rnd (d : N) a rest st :
  heap st !! l = Some cfg →
  arms cfg a →
  gracefulTimeout < d →
  (∀ t, nextSignal rest = Some t → gracefulTimeout < t) →
  ∃ st',
    handleSignals c (Some l) (LeaveReturns d None) rnd (a :: rest) st = (Exit 1, st')
    ∧ now st' = now st + delay a + gracefulTimeout.
Proof.
  intros Hl Ha Hd Hs.
  exists (tick gracefulTimeout (leaving (received a st))). split; [| done].
  rewrite (handleSignals_armed c l _ rnd a rest st cfg Hl Ha).
  rewrite gracefulLeave_timeout; [done | exact Hs |].
  by intros d' [= <-].
Qed.

(** X18.  When [Leave] returns [nil] at the very moment the next value is
    sent on [signalCh], before the grace period is over, both cases of the
    [select] are ready and the exit code is the one of the case it picks: 1
    for the first choice, 0 for the second. *)
Theorem leave_and_signal_tie c l cfg (d : N) a rest st :
  heap st !! l = Some cfg →
  arms cfg a →
  nextSignal rest = Some d →
  d < gracefulTimeout →
  (handleSignals c (Some l) (LeaveReturns d None) 0 (a :: rest) st).1 = Exit 1
  ∧ (handleSignals c (Some l) (LeaveReturns d None) 1 (a :: rest) st).1 = Exit 0.
Proof.
  intros Hl Ha Hs Hd.
  rewrite !(handleSignals_armed c l _ _ a rest st cfg Hl Ha).
  unfold gracefulLeave, readyAt, selectCase. rewrite Hs.
  assert (earliest ([(SecondSignal, d)] ++ [(TimedOut, gracefulTimeout)]
                    ++ [(LeaveDone, d)]) = d) as ->.
  { change (N.min d (N.min gracefulTimeout (N.min d gracefulTimeout)) = d). lia. }
  cbn [app]. rewrite !filter_cons, filter_nil. cbn [snd].
  rewrite decide_True by done.
  rewrite decide_False by lia.
  rewrite decide_True by done.
  done.
Qed.

End MoreFacts.

(** * Startup and teardown *)

Section RunFacts.

Context {Rest : Type} `{K : @Collaborators Rest} `{SK : @ServerCollaborators Rest}.

Implicit Types (st : @State Rest) (cfg : @MayaConfig Rest) (sv : Servers)
  (l : loc).

Lemma printInfo_frame (info : gmap string string) (keys : list string) st :
  logFilter (printInfo info keys st).2 = logFilter st
  ∧ heap (printInfo info keys st).2 = heap st
  ∧ now (printInfo info keys st).2 = now st
  ∧ leaves (printInfo info keys st).2 = leaves st.
Proof.
  revert st. induction keys as [|k keys IH]; intros st; [done |].
  cbn [printInfo]. destruct (Repeat _ _) as [pad|]; [| done].
  destruct (IH (say (UiInfo (pad +:+ Title k +:+ ": "
                             +:+ default EmptyString (info !! k))) st))
    as (-> & -> & -> & ->). done.
Qed.

(** X19.  The banner of [Run]: the loop over the sorted keys of [info]
    does not panic and prints three lines, log level, region and version in
    that order, each label in title case and right-aligned in 18
    columns. *)
Theorem printInfo_banner cfg st :
  printInfo (serverInfo cfg) (infoKeys (serverInfo cfg)) st =
  (Ok tt,
   says [UiInfo ("         Log Level: " +:+ LogLevel cfg);
         UiInfo ("            Region: " +:+ Region cfg +:+ " (DC: "
                 +:+ Datacenter cfg +:+ ")");
         UiInfo ("           Version: " +:+ Version cfg
                 +:+ VersionPrerelease cfg)] st).
Proof.
  assert (infoKeys (serverInfo cfg) = ["log level"; "region"; "version"]) as ->
    by (vm_compute; reflexivity).
  cbn [printInfo].
  assert (serverInfo cfg !! "log level" = Some (LogLevel cfg)) as ->
    by (unfold serverInfo; rewrite lookup_insert_ne by done; apply lookup_insert_eq).
  assert (serverInfo cfg !! "region"
          = Some (Region cfg +:+ " (DC: " +:+ Datacenter cfg +:+ ")")) as ->
    by (unfold serverInfo; apply lookup_insert_eq).
  assert (serverInfo cfg !! "version"
          = Some (Version cfg +:+ VersionPrerelease cfg)) as ->
    by (unfold serverInfo; rewrite !lookup_insert_ne by done; apply lookup_insert_eq).
  change (Repeat " " (padding - Z.of_nat (String.length "log level")))
    with (Ok (A := string) "         ").
  change (Repeat " " (padding - Z.of_nat (String.length "region")))
    with (Ok (A := string) "            ").
  change (Repeat " " (padding - Z.of_nat (String.length "version")))
    with (Ok (A := string) "           ").
  change (Title "log level") with "Log Level".
  change (Title "region") with "Region".
  change (Title "version") with "Version".
  unfold say, says. cbn. by rewrite <- !app_assoc.
Qed.

(** What [setupMayaServer] does, case by case; shared by the facts about
    [setupMayaServer] and about [Run]. *)
Lemma setupMayaServer_cases (p : ptr) st sv :
  ∃ r st' sv',
    setupMayaServer p st sv = (r, st', sv')
    ∧ logFilter st' = logFilter st ∧ heap st' = heap st
    ∧ now st' = now st ∧ leaves st' = leaves st
    ∧ match r with
      | None =>
          ui st' = ui st ++ [UiOutput "Starting Maya server ..."]
          ∧ events sv' = events sv ++ [MayaStarted; HTTPStarted]
          ∧ maya sv' = true ∧ httpServer sv' = true
      | Some err =>
          (∃ what, last (ui st') = Some (UiError (what +:+ err)))
          ∧ httpServer sv' = httpServer sv
          ∧ (sv' = sv
             ∨ events sv' = events sv ++ [MayaStarted; MayaShutdown])
      end.
Proof.
  unfold setupMayaServer.
  destruct (NewMayaServer _) as [err|].
  { eexists (Some err), _, sv. repeat split; try done.
    - eexists. apply last_snoc.
    - by left. }
  destruct (NewHTTPServer _) as [err|].
  - eexists (Some err), _, _. repeat split; try done.
    + eexists. apply last_snoc.
    + right. cbn. by rewrite <- app_assoc.
  - eexists None, _, _. repeat split; try done.
    cbn. by rewrite <- app_assoc.
Qed.

(** X20.  [setupMayaServer] leaves everything but the console and the
    servers as it was.  When it returns [nil] both servers have been
    started, in that order; when it returns an error it has reported it,
    the HTTP server is not running, and the Maya server either was not
    started or has been shut down. *)
Theorem setupMayaServer_all_or_nothing (p : ptr) st sv :
  ∃ r st' sv',
    setupMayaServer p st sv = (r, st', sv')
    ∧ logFilter st' = logFilter st ∧ heap st' = heap st
    ∧ now st' = now st ∧ leaves st' = leaves st
    ∧ match r with
      | None =>
          ui st' = ui st ++ [UiOutput "Starting Maya server ..."]
          ∧ events sv' = events sv ++ [MayaStarted; HTTPStarted]
          ∧ maya sv' = true ∧ httpServer sv' = true
      | Some err =>
          (∃ what, last (ui st') = Some (UiError (what +:+ err)))
          ∧ httpServer sv' = httpServer sv
          ∧ (sv' = sv
             ∨ events sv' = events sv ++ [MayaStarted; MayaShutdown])
      end.
Proof. apply setupMayaServer_cases. Qed.

(** The ways [Run] can end: before a server is started; after the HTTP
    server failed to start; by a panic while the banner is printed; or by
    what [handleSignals] does, entered with a valid minimum level. *)
Lemma Run_cases c (args : list string) leave rnd arrivals st sv o st' sv' :
  Run c args leave rnd arrivals st sv = (o, st', sv') →
  (sv' = sv ∧ (o = Exit 1 ∨ o = Panicked))
  ∨ (o = Exit 1 ∧ filterValid st'
     ∧ events sv' = events sv ++ [MayaStarted; MayaShutdown])
  ∨ (o = Panicked ∧ filterValid st'
     ∧ events sv' = events sv ++ [MayaStarted; HTTPStarted; HTTPShutdown; MayaShutdown])
  ∨ (∃ l st1,
       handleSignals (withArgs c args) (Some l) leave rnd arrivals st1 = (o, st')
       ∧ filterValid st1 ∧ is_Some (heap st1 !! l)
       ∧ leaves st1 = leaves st ∧ now st1 = now st
       ∧ (o = Blocked ∧ events sv' = events sv ++ [MayaStarted; HTTPStarted]
          ∨ o ≠ Blocked
            ∧ events sv' = events sv
                ++ [MayaStarted; HTTPStarted; HTTPShutdown; MayaShutdown])).
Proof.
  unfold Run. fold (withArgs c args).
  destruct (readMayaConfig (withArgs c args) (now st)) as [msgs [[cfg|]|]];
    [| intros [= <- <- <-]; left; auto | intros [= <- <- <-]; left; auto].
  cbn [alloc].
  set (l := fresh (dom (heap (says msgs st)))).
  set (s0 := setHeap (<[l := cfg]> (heap (says msgs st))) (says msgs st)).
  assert (deref (Some l) s0 = Some cfg) as Hl0 by (cbn; apply lookup_insert_eq).
  destruct (setupLoggers_cases (Some l) s0 cfg Hl0)
    as (r & s1 & Hsl & Hh1 & Hn1 & Hv1 & _ & _).
  pose proof (setupLoggers_filterValid (Some l) s0) as Hvalid.
  rewrite Hsl in Hvalid |- *.
  destruct r as [syslog|]; [| intros [= <- <- <-]; left; auto].
  specialize (Hvalid syslog s1 eq_refl).
  assert (deref (Some l) s1 = Some cfg) as Hl1 by (cbn; rewrite Hh1; exact Hl0).
  rewrite Hl1.
  set (s2 := if (0 <? length (Files cfg))%nat
             then say (UiInfo ("Loaded configuration from "
                               +:+ String.concat ", " (Files cfg))) s1
             else say (UiInfo "No configuration files loaded") s1).
  assert (logFilter s2 = logFilter s1 ∧ heap s2 = heap s1
          ∧ now s2 = now s1 ∧ leaves s2 = leaves s1) as (Hf2 & Hh2 & Hn2 & Hv2)
    by (unfold s2; by destruct (0 <? _)%nat).
  assert (deref (Some l) s2 = Some cfg) as Hl2 by (cbn; rewrite Hh2; exact Hl1).
  destruct (setupMayaServer_cases (Some l) s2 sv)
    as (r & s3 & sv3 & Hsm & Hf3 & Hh3 & Hn3 & Hv3 & Hr).
  rewrite Hsm.
  assert (filterValid s3) as Hvalid3.
  { apply (filterValid_frame s1); [congruence | exact Hvalid]. }
  destruct r as [err|].
  { destruct Hr as (_ & _ & [-> | Hev]); intros [= <- <- <-].
    - left. auto.
    - right. left. auto. }
  destruct Hr as (_ & Hev & _ & Hhttp).
  assert (events (runDeferred sv3)
          = events sv ++ [MayaStarted; HTTPStarted; HTTPShutdown; MayaShutdown])
    as Hdef.
  { unfold runDeferred. rewrite Hhttp. cbn. rewrite Hev.
    by rewrite <- !app_assoc. }
  assert (deref (Some l) s3 = Some cfg) as Hl3 by (cbn; rewrite Hh3; exact Hl2).
  rewrite Hl3.
  set (s4 := say (UiOutput ("Maya server configuration:" +:+ nl)) s3).
  destruct (printInfo_frame (serverInfo cfg) (infoKeys (serverInfo cfg)) s4)
    as (Hf5 & Hh5 & Hn5 & Hv5).
  destruct (printInfo (serverInfo cfg) (infoKeys (serverInfo cfg)) s4)
    as [[u|] s5]; cbn [snd] in Hf5, Hh5, Hn5, Hv5.
  2: { intros [= <- <- <-]. right. right. left. repeat split; [| exact Hdef].
       apply (filterValid_frame s3); [exact Hf5 | exact Hvalid3]. }
  set (s6 := say (UiOutput ("Maya server started! Log data will stream in below:" +:+ nl))
               (say (UiOutput EmptyString) s5)).
  destruct (handleSignals (withArgs c args) (Some l) leave rnd arrivals s6)
    as [o1 s7] eqn:Hrun.
  intros Hres. right. right. right. exists l, s6.
  assert (filterValid s6) as Hvalid6.
  { apply (filterValid_frame s3); [exact Hf5 | exact Hvalid3]. }
  assert (is_Some (heap s6 !! l)) as Hl6.
  { exists cfg. change (heap s6) with (heap s5). rewrite Hh5. exact Hl3. }
  assert (leaves s6 = leaves st ∧ now s6 = now st) as [Hv6 Hn6].
  { change (leaves s6) with (leaves s5). change (now s6) with (now s5).
    rewrite Hv5, Hn5. change (leaves s4) with (leaves s3).
    change (now s4) with (now s3). rewrite Hv3, Hn3, Hv2, Hn2, Hv1, Hn1. done. }
  destruct o1; injection Hres as <- <- <-;
    (repeat split; [done | done | done | done | done |]).
  - right. split; [done | exact Hdef].
  - left. split; [done | exact Hev].
  - right. split; [done | exact Hdef].
Qed.

(** X21.  [Run] never returns with a server left running.  When it has
    returned or panicked, it has started no server, or started and shut
    down the Maya server alone, or started both and shut down the HTTP
    server and then the Maya server, each once.  While it is still waiting
    in [handleSignals], both servers are running. *)
Theorem Run_shuts_down_what_it_started c (args : list string) leave rnd
    arrivals st sv o st' sv' :
  Run c args leave rnd arrivals st sv = (o, st', sv') →
  match o with
  | Blocked => events sv' = events sv ++ [MayaStarted; HTTPStarted]
  | _ =>
      events sv' = events sv
      ∨ events sv' = events sv ++ [MayaStarted; MayaShutdown]
      ∨ events sv' = events sv
          ++ [MayaStarted; HTTPStarted; HTTPShutdown; MayaShutdown]
  end.
Proof.
  intros Hrun. apply Run_cases in Hrun.
  destruct Hrun as [[-> [-> | ->]] | [(-> & _ & Hev) | [(-> & _ & Hev) | Hloop]]];
    auto.
  destruct Hloop as (l & st1 & _ & _ & _ & _ & _ & [[-> Hev] | [Hne Hev]]);
    [exact Hev |].
  destruct o; auto. done.
Qed.

(** X22.  [Run] returns 0 or 1.  It returns 0 only when both servers were
    started and shut down again and the [Leave] it started has returned
    [nil] within [gracefulTimeout]. *)
Theorem Run_exit_codes c (args : list string) leave rnd arrivals st sv
    code st' sv' :
  Run c args leave rnd arrivals st sv = (Exit code, st', sv') →
  code = 1%Z
  ∨ code = 0%Z
    ∧ events sv' = events sv
        ++ [MayaStarted; HTTPStarted; HTTPShutdown; MayaShutdown]
    ∧ leaves st' = S (leaves st)
    ∧ ∃ d : N, leave = LeaveReturns d None ∧ d ≤ gracefulTimeout.
Proof.
  intros Hrun. apply Run_cases in Hrun.
  destruct Hrun as [[_ [[= ->] | [=]]] | [([= ->] & _) | [([=] & _) | Hloop]]];
    [by left | by left |].
  destruct Hloop as (l & st1 & Hsig & _ & _ & Hl & _ & [[[=] _] | [_ Hev]]).
  apply handleSignals_outcome in Hsig.
  destruct Hsig as [_ [[-> _] | [Hl' [-> | [-> Hd]]]]]; [by left | by left |].
  right. repeat split; [exact Hev | congruence | exact Hd].
Qed.


(** X24.  [Run] refuses a configuration it cannot use.  When the
    configuration cannot be acquired, or asks for a log level that is not
    one of the levels of [server.LevelFilter()], [Run] returns 1 with an
    error as the last line on the console, and has started neither a
    server nor a [Leave]. *)
Theorem Run_refuses_bad_configuration c (args : list string) leave rnd
    arrivals st sv :
  (readMayaConfig (withArgs c args) (now st)).2 = Ok None
  ∨ (∃ cfg, (readMayaConfig (withArgs c args) (now st)).2 = Ok (Some cfg)
            ∧ ToUpper (LogLevel cfg) ∉ Levels server_LevelFilter) →
  ∃ st',
    Run c args leave rnd arrivals st sv = (Exit 1, st', sv)
    ∧ (∃ e, last (ui st') = Some (UiError e))
    ∧ leaves st' = leaves st.
Proof.
  intros Hbad. unfold Run. fold (withArgs c args).
  destruct (readMayaConfig (withArgs c args) (now st)) as [msgs r] eqn:Hr.
  cbn [snd] in Hbad. destruct Hbad as [-> | (cfg & -> & Hlevel)].
  - eexists. split; [reflexivity |]. split; [| done].
    destruct (readMayaConfig_nil_last _ _ _ Hr) as [e He]. exists e.
    cbn. destruct msgs as [|m msgs]; [discriminate He |].
    by rewrite last_app, He.
  - cbn [alloc]. unfold setupLoggers. cbn [deref setLogFilter heap setHeap says].
    rewrite lookup_insert_eq. cbn [MinLevel Levels].
    destruct (ValidateLevelFilter _ _) eqn:Hv.
    { exfalso. apply Hlevel. by apply rangeLevels_elem_of. }
    cbn [negb]. eexists. split; [reflexivity |]. split; [| done].
    eexists. apply last_snoc.
Qed.

End RunFacts.

(** * The further properties at concrete inputs *)

Lemma readMayaConfig_nil_is_reported_witness :
  ∃ e,
    last [UiWarn "No configuration loaded from /etc/empty.conf";
          UiError "Error loading configuration from /etc/missing.conf: no such file or directory"]
    = Some (UiError e).
Proof.
  apply (readMayaConfig_nil_is_reported (K := DemoDisk.collaborators)
           (DemoDisk.cmd ["/etc/empty.conf"; "/etc/missing.conf"; "/etc/maya.conf"]) 0).
  vm_compute. reflexivity.
Defined.

Lemma readMayaConfig_success_only_warns_witness :
  Forall (fun path => loads (K := DemoDisk.collaborators) 0 path = true)
         ["/etc/empty.conf"; "/etc/data.conf"; "/etc/maya.conf"]
  ∧ [UiWarn "No configuration loaded from /etc/empty.conf"]
    = map (fun path => UiWarn ("No configuration loaded from " +:+ path))
          (filter (fun path => loadsNothing (K := DemoDisk.collaborators) 0 path = true)
                  ["/etc/empty.conf"; "/etc/data.conf"; "/etc/maya.conf"]).
Proof.
  apply (readMayaConfig_success_only_warns (K := DemoDisk.collaborators)
           (DemoDisk.cmd ["/etc/empty.conf"; "/etc/data.conf"; "/etc/maya.conf"])
           0 _ DemoDisk.acquired _ Demo.zero).
  - vm_compute. reflexivity.
  - vm_compute. reflexivity.
Defined.

Lemma readMayaConfig_data_dir_absolute_witness :
  DataDir DemoDisk.acquired = EmptyString
  ∨ IsAbs (Collaborators := DemoDisk.collaborators) (DataDir DemoDisk.acquired) = true.
Proof.
  apply (readMayaConfig_data_dir_absolute (K := DemoDisk.collaborators)
           (DemoDisk.cmd ["/etc/empty.conf"; "/etc/data.conf"; "/etc/maya.conf"])
           0 [UiWarn "No configuration loaded from /etc/empty.conf"]).
  vm_compute. reflexivity.
Defined.

Lemma readMayaConfig_stops_at_first_error_witness :
  let c := DemoDisk.cmd ["/etc/empty.conf"; "/etc/missing.conf"; "/etc/maya.conf"] in
  (readMayaConfig (K := DemoDisk.collaborators) c 0).2 = Ok None
  ∧ (readMayaConfig (K := DemoDisk.collaborators) c 0).1 =
      map (fun q => UiWarn ("No configuration loaded from " +:+ q))
          (filter (fun q => loadsNothing (K := DemoDisk.collaborators) 0 q = true)
                  ["/etc/empty.conf"])
      ++ [UiError ("Error loading configuration from " +:+ "/etc/missing.conf"
                   +:+ ": " +:+ "no such file or directory")].
Proof.
  apply (readMayaConfig_stops_at_first_error (K := DemoDisk.collaborators)
           (DemoDisk.cmd ["/etc/empty.conf"; "/etc/missing.conf"; "/etc/maya.conf"])
           0 ["/etc/empty.conf"] ["/etc/maya.conf"] "/etc/missing.conf"
           "no such file or directory" Demo.zero).
  - vm_compute. reflexivity.
  - constructor; [vm_compute; reflexivity | constructor].
  - vm_compute. reflexivity.
Defined.

Lemma setupLoggers_reports_or_succeeds_witness :
  let cfg := Demo.fileWith "warn" "eu" true in
  ∃ r st',
    setupLoggers Demo.active (Demo.boot cfg) = (Ok r, st')
    ∧ heap st' = heap (Demo.boot cfg) ∧ now st' = now (Demo.boot cfg)
    ∧ leaves st' = leaves (Demo.boot cfg)
    ∧ logFilter st' =
        Some {| Levels := Levels server_LevelFilter;
                MinLevel := ToUpper (LogLevel cfg) |}
    ∧ match r with
      | Some syslog =>
          ui st' = ui (Demo.boot cfg) ∧ syslog = EnableSyslog cfg
          ∧ ToUpper (LogLevel cfg) ∈ Levels server_LevelFilter
      | None => ∃ e, ui st' = ui (Demo.boot cfg) ++ [UiError e]
      end.
Proof.
  apply (setupLoggers_reports_or_succeeds Demo.active
           (Demo.boot (Demo.fileWith "warn" "eu" true))).
  reflexivity.
Defined.

(** One second after the start [/etc/maya.conf] asks for level [debug]. *)
Lemma reload_valid_log_level_witness :
  let new := withVersionInfo Demo.cmd
               (Demo.merge Demo.default (Demo.fileWith "debug" "eu" true)) in
  ∃ st',
    (∀ leave rnd rest,
       handleSignals Demo.cmd (Some 1%positive) leave rnd
         (Scenario.sighup Second :: rest) (Demo.running Scenario.stayer) =
       handleSignals Demo.cmd (Some 1%positive) leave rnd rest st')
    ∧ heap st' !! 1%positive = Some new
    ∧ logFilter st' =
        Some {| Levels := Levels server_LevelFilter;
                MinLevel := ToUpper (LogLevel new) |}
    ∧ leaves st' = leaves (Demo.running Scenario.stayer)
    ∧ now st' = now (Demo.running Scenario.stayer) + delay (Scenario.sighup Second).
Proof.
  apply (reload_valid_log_level Demo.cmd 1%positive Scenario.stayer _
           server_LevelFilter []).
  - reflexivity.
  - reflexivity.
  - reflexivity.
  - vm_compute. reflexivity.
  - vm_compute. reflexivity.
Defined.

(** Two reloads, the second with the unknown level, then an interrupt. *)
Lemma handleSignals_keeps_levels_witness :
  ∃ filter',
    logFilter (handleSignals Demo.cmd Demo.active (LeaveReturns Second None) 0
                 [Scenario.sighup Second; Scenario.sighup (14 * Second);
                  Scenario.sigint Second]
                 (Demo.running Scenario.stayer)).2 = Some filter'
    ∧ Levels filter' = Levels server_LevelFilter.
Proof.
  apply (handleSignals_keeps_levels Demo.cmd Demo.active).
  reflexivity.
Defined.

Lemma handleSignals_writes_active_only_witness :
  heap (handleSignals Demo.cmd (Some 1%positive) LeaveHangs 0
          [Scenario.sighup Second; Scenario.sighup (14 * Second)]
          DemoDisk.twoObjects).2 !! 2%positive = Some Scenario.stayer.
Proof.
  apply (handleSignals_writes_active_only Demo.cmd 1%positive).
  - discriminate.
  - reflexivity.
Defined.

Lemma handleSignals_exit_codes_witness :
  let r := handleSignals Demo.cmd Demo.active (LeaveReturns Second None) 0
             [Scenario.sigpipe Second; Scenario.sigint Second]
             (Demo.running Scenario.leaver) in
  0%Z = 1%Z
  ∨ 0%Z = 0%Z ∧ leaves r.2 = S (leaves (Demo.running Scenario.leaver))
    ∧ ∃ d : N, LeaveReturns Second None = LeaveReturns d None ∧ d ≤ gracefulTimeout.
Proof.
  apply (handleSignals_exit_codes Demo.cmd Demo.active (LeaveReturns Second None) 0
           [Scenario.sigpipe Second; Scenario.sigint Second]
           (Demo.running Scenario.leaver)).
  vm_compute. reflexivity.
Defined.

Lemma leave_started_at_most_once_witness :
  let r := handleSignals Demo.cmd Demo.active (LeaveReturns Second None) 0
             [Scenario.sighup Second; Scenario.sigint Second]
             (Demo.running Scenario.stayer) in
  leaves r.2 = leaves (Demo.running Scenario.stayer)
  ∨ leaves r.2 = S (leaves (Demo.running Scenario.stayer))
    ∧ ∃ code, Exit 0 = Exit code.
Proof.
  apply (leave_started_at_most_once Demo.cmd Demo.active (LeaveReturns Second None) 0
           [Scenario.sighup Second; Scenario.sigint Second]
           (Demo.running Scenario.stayer)).
  vm_compute. reflexivity.
Defined.

Lemma handleSignals_exit_time_witness :
  let arrivals := [Scenario.sigpipe Second; Scenario.sigint Second;
                   Scenario.sigint (7 * Second)] in
  let r := handleSignals Demo.cmd Demo.active LeaveHangs 0 arrivals
             (Demo.running Scenario.leaver) in
  now r.2 ≤ now (Demo.running Scenario.leaver) + elapsed arrivals + gracefulTimeout.
Proof.
  apply (handleSignals_exit_time Demo.cmd Demo.active LeaveHangs 0
           [Scenario.sigpipe Second; Scenario.sigint Second;
            Scenario.sigint (7 * Second)]
           (Demo.running Scenario.leaver) 1%Z).
  vm_compute. reflexivity.
Defined.

Lemma handleSignals_waiting_witness :
  let arrivals := [Scenario.sighup Second; Scenario.sigpipe Second] in
  let r := handleSignals Demo.cmd Demo.active LeaveHangs 0 arrivals
             (Demo.running Scenario.leaver) in
  Forall (fun b => src b = FromSignalCh SIGHUP ∨ src b = FromSignalCh SIGPIPE)
         arrivals
  ∧ now r.2 = now (Demo.running Scenario.leaver) + elapsed arrivals.
Proof.
  apply (handleSignals_waiting Demo.cmd Demo.active LeaveHangs 0
           [Scenario.sighup Second; Scenario.sigpipe Second]
           (Demo.running Scenario.leaver)).
  vm_compute. reflexivity.
Defined.

Lemma hangups_never_exit_witness :
  ∃ st',
    handleSignals Demo.cmd (Some 1%positive) LeaveHangs 0
      [Scenario.sighup Second; Scenario.sigpipe Second;
       Scenario.sighup (14 * Second); Scenario.sighup (14 * Second)]
      (Demo.running Scenario.leaver) = (Blocked, st')
    ∧ is_Some (heap st' !! 1%positive) ∧ is_Some (logFilter st').
Proof.
  apply (hangups_never_exit Demo.cmd 1%positive Scenario.leaver server_LevelFilter).
  - intros t. unfold readMayaConfig.
    change (flagsParse (UpCommand.args Demo.cmd))
      with (Some (["/etc/maya.conf"], Demo.zero)).
    cbn [loadConfigPaths].
    change (LoadMayaConfig t "/etc/maya.conf")
      with (if t <? 10 * Second then inr (Some (Demo.fileWith "debug" "eu" true))
            else if t <? 20 * Second then inr (Some (Demo.fileWith "bogus" "us" true))
            else inl "parse error" : string + option (@MayaConfig unit)).
    destruct (t <? 10 * Second); [vm_compute; discriminate |].
    destruct (t <? 20 * Second); vm_compute; discriminate.
  - reflexivity.
  - reflexivity.
  - repeat (constructor; [first [left; reflexivity | right; reflexivity] |]).
    constructor.
Defined.

(** [LeaveOnInt] is set, [LeaveOnTerm] is not. *)
Lemma terminate_without_leave_witness :
  ∃ st',
    handleSignals Demo.cmd (Some 1%positive) (LeaveReturns Second None) 0
      [DemoDisk.sigterm Second] (Demo.running Scenario.leaver) = (Exit 1, st')
    ∧ leaves st' = leaves (Demo.running Scenario.leaver)
    ∧ now st' = now (Demo.running Scenario.leaver) + delay (DemoDisk.sigterm Second).
Proof.
  apply (terminate_without_leave Demo.cmd 1%positive Scenario.leaver).
  - reflexivity.
  - reflexivity.
  - reflexivity.
Defined.

Lemma graceful_leave_on_terminate_witness :
  ∃ st',
    handleSignals Demo.cmd (Some 1%positive) (LeaveReturns (2 * Second) None) 0
      [DemoDisk.sigterm Second; Scenario.shutdown Second]
      (Demo.running DemoDisk.termLeaver) = (Exit 0, st')
    ∧ leaves st' = S (leaves (Demo.running DemoDisk.termLeaver))
    ∧ now st' = now (Demo.running DemoDisk.termLeaver)
                + delay (DemoDisk.sigterm Second) + 2 * Second.
Proof.
  apply (graceful_leave_on_terminate Demo.cmd 1%positive DemoDisk.termLeaver).
  - reflexivity.
  - reflexivity.
  - reflexivity.
  - vm_compute. reflexivity.
  - intros t H. discriminate H.
Defined.

Lemma late_leave_is_discarded_witness :
  ∃ st',
    handleSignals Demo.cmd (Some 1%positive) (LeaveReturns (6 * Second) None) 0
      [Scenario.sigint Second] (Demo.running Scenario.leaver) = (Exit 1, st')
    ∧ now st' = now (Demo.running Scenario.leaver) + delay (Scenario.sigint Second)
                + gracefulTimeout.
Proof.
  apply (late_leave_is_discarded Demo.cmd 1%positive Scenario.leaver).
  - reflexivity.
  - left. split; reflexivity.
  - vm_compute. reflexivity.
  - intros t H. discriminate H.
Defined.

Lemma leave_and_signal_tie_witness :
  (handleSignals Demo.cmd (Some 1%positive) (LeaveReturns (2 * Second) None) 0
     [Scenario.sigint Second; Scenario.sigint (2 * Second)]
     (Demo.running Scenario.leaver)).1 = Exit 1
  ∧ (handleSignals Demo.cmd (Some 1%positive) (LeaveReturns (2 * Second) None) 1
       [Scenario.sigint Second; Scenario.sigint (2 * Second)]
       (Demo.running Scenario.leaver)).1 = Exit 0.
Proof.
  apply (leave_and_signal_tie Demo.cmd 1%positive Scenario.leaver).
  - reflexivity.
  - left. split; reflexivity.
  - reflexivity.
  - vm_compute. reflexivity.
Defined.

(** A start with [/etc/maya.conf], a broken pipe, then a send on
    [c.ShutdownCh]; [Leave] takes one second. *)
Lemma Run_shuts_down_what_it_started_witness :
  let r := Run (SK := DemoServers.up) Demo.cmd ["-config"; "/etc/maya.conf"]
             (LeaveReturns Second None) 0
             [Scenario.sigpipe Second; Scenario.shutdown Second]
             DemoServers.blank DemoServers.idle in
  events r.2 = events DemoServers.idle
  ∨ events r.2 = events DemoServers.idle ++ [MayaStarted; MayaShutdown]
  ∨ events r.2 = events DemoServers.idle
      ++ [MayaStarted; HTTPStarted; HTTPShutdown; MayaShutdown].
Proof.
  eapply (Run_shuts_down_what_it_started (SK := DemoServers.up) Demo.cmd
           ["-config"; "/etc/maya.conf"] (LeaveReturns Second None) 0
           [Scenario.sigpipe Second; Scenario.shutdown Second]
           DemoServers.blank DemoServers.idle (Exit 0)).
  vm_compute. reflexivity.
Defined.

Lemma Run_exit_codes_witness :
  let r := Run (SK := DemoServers.up) Demo.cmd ["-config"; "/etc/maya.conf"]
             (LeaveReturns Second None) 0
             [Scenario.sigpipe Second; Scenario.shutdown Second]
             DemoServers.blank DemoServers.idle in
  0%Z = 1%Z
  ∨ 0%Z = 0%Z
    ∧ events r.2 = events DemoServers.idle
        ++ [MayaStarted; HTTPStarted; HTTPShutdown; MayaShutdown]
    ∧ leaves r.1.2 = S (leaves DemoServers.blank)
    ∧ ∃ d : N, LeaveReturns Second None = LeaveReturns d None ∧ d ≤ gracefulTimeout.
Proof.
  eapply (Run_exit_codes (SK := DemoServers.up) Demo.cmd
           ["-config"; "/etc/maya.conf"] (LeaveReturns Second None) 0
           [Scenario.sigpipe Second; Scenario.shutdown Second]
           DemoServers.blank DemoServers.idle).
  vm_compute. reflexivity.
Defined.


(** A start with a flag that does not exist. *)
Lemma Run_refuses_bad_configuration_witness :
  ∃ st',
    Run (SK := DemoServers.up) Demo.cmd ["-verbose"] LeaveHangs 0
      [Scenario.sigint Second] DemoServers.blank DemoServers.idle
      = (Exit 1, st', DemoServers.idle)
    ∧ (∃ e, last (ui st') = Some (UiError e))
    ∧ leaves st' = leaves DemoServers.blank.
Proof.
  apply (Run_refuses_bad_configuration (SK := DemoServers.up) Demo.cmd ["-verbose"]).
  left. vm_compute. reflexivity.
Defined.

(** Two broken pipes before an interrupt. *)
Lemma sigpipe_transparent_while_waiting_witness :
  let pipes := [Scenario.sigpipe Second; Scenario.sigpipe (2 * Second)] in
  let rest := [Scenario.sigint Second] in
  (handleSignals Demo.cmd Demo.active (LeaveReturns Second None) 0
     (pipes ++ rest) (Demo.running Scenario.leaver)).1 =
  (handleSignals Demo.cmd Demo.active (LeaveReturns Second None) 0
     rest (tick (elapsed pipes) (Demo.running Scenario.leaver))).1
  ∧ sameButUi
      (handleSignals Demo.cmd Demo.active (LeaveReturns Second None) 0
         (pipes ++ rest) (Demo.running Scenario.leaver)).2
      (handleSignals Demo.cmd Demo.active (LeaveReturns Second None) 0
         rest (tick (elapsed pipes) (Demo.running Scenario.leaver))).2
  ∧ ∃ out,
      ui (handleSignals Demo.cmd Demo.active (LeaveReturns Second None) 0
            rest (tick (elapsed pipes) (Demo.running Scenario.leaver))).2
        = ui (Demo.running Scenario.leaver) ++ out
      ∧ ui (handleSignals Demo.cmd Demo.active (LeaveReturns Second None) 0
              (pipes ++ rest) (Demo.running Scenario.leaver)).2
        = ui (Demo.running Scenario.leaver)
          ++ map (fun _ => UiOutput "Caught signal: broken pipe") pipes
          ++ out.
Proof.
  apply (sigpipe_transparent_while_waiting Demo.cmd Demo.active
           (LeaveReturns Second None) 0
           [Scenario.sigpipe Second; Scenario.sigpipe (2 * Second)]
           [Scenario.sigint Second] (Demo.running Scenario.leaver)).
  constructor; [reflexivity |]. constructor; [reflexivity |]. constructor.
Defined.
